(** * OrbitSchemaFromOpenApi: the schema transformer and the fetch pipeline

    A shallow embedding of [src/index.js].

    The transformer ([serialize], [convertToOrbit]) walks a parsed JSON
    document by dynamic property access, so the document is embedded as an
    untyped JavaScript value and every read is a computation that may throw
    a [TypeError].  The options are embedded with the shape their JSDoc gives
    them.  The objects the transformer builds are used as dictionaries keyed
    by property name; they are embedded as the finite map of their own
    properties, so the order in which properties were added is not
    observable.  An assignment [o[k] = v] to such an object stores [v] under
    [k], except for the name [__proto__]: there the assignment sets the
    prototype of [o] and creates no property of its own ([store]).

    What the transformer does to the objects themselves is embedded a second
    time ([Heap]): the document and the output live in a heap, object
    literals allocate and assignments update in place.  The heap program is
    shown to build what the functional one computes and to change no object
    it was given; this is where determinism is stated.

    The fetch pipeline ([generate]) is embedded by what can be observed once
    its collaborators have answered: the state of the promise it returned,
    the console and the rejections left unhandled.  The collaborators
    ([./lib/oauth], [axios]) are parameters. *)

From Stdlib Require Import ZArith Ascii DecimalString.
From stdpp Require Import base option list strings gmap fin_maps.

Local Open Scope string_scope.
#[local] Set Warnings "-register-all".

(** ** JavaScript values *)

(** The values a parsed JSON document is made of, plus [undefined], which is
    what reading an absent property yields.  An object is the list of its own
    enumerable properties in the order [Object.keys] reports them.  Numbers
    are only ever tested for truthiness by the program, never computed with.
    Strings are sequences of code units. *)
Inductive value : Type :=
  | VUndefined
  | VNull
  | VBool (b : bool)
  | VNum (n : Z)
  | VStr (s : string)
  | VArr (xs : list value)
  | VObj (ps : list (string * value)).

(** ** Exceptions *)

Inductive error : Type :=
  | TypeError
  | SyntaxError.

Inductive result (A : Type) : Type :=
  | Ok (a : A)
  | Throw (e : error).
Arguments Ok {A} a.
Arguments Throw {A} e.

#[export] Instance result_ret : MRet result := @Ok.
#[export] Instance result_bind : MBind result := λ A B f r,
  match r with
  | Ok a => f a
  | Throw e => Throw e
  end.

(** ** Built-ins the program calls *)

Module Js.

(** ToBoolean, as applied by [if (...)] and [&&]. *)
Definition truthy (v : value) : bool :=
match v with
| VUndefined | VNull => false
| VBool b => b
| VNum n => negb (n =? 0)%Z
| VStr s => negb (String.eqb s "")
| VArr _ | VObj _ => true
end.

(** [v === 'array'] and the like: strict equality against a string literal. *)
Definition strict_eq_str (v : value) (lit : string) : bool :=
match v with
| VStr s => String.eqb s lit
| _ => false
end.

Definition index_key (i : nat) : string :=
NilEmpty.string_of_uint (Nat.to_uint i).

Fixpoint chars (s : string) : list value :=
match s with
| EmptyString => []
| String c s' => VStr (String c EmptyString) :: chars s'
end.

(** The own enumerable properties of a value, in [Object.keys] order.
  Reading them off [undefined] or [null] is a [TypeError]; arrays and
  strings expose their indices; numbers and booleans have none. *)
Definition own_props (v : value) : result (list (string * value)) :=
match v with
| VUndefined | VNull => Throw TypeError
| VBool _ | VNum _ => Ok []
| VStr s => Ok (imap (λ i c, (index_key i, c)) (chars s))
| VArr xs => Ok (imap (λ i x, (index_key i, x)) xs)
| VObj ps => Ok ps
end.

Fixpoint assoc (k : string) (ps : list (string * value)) : option value :=
match ps with
| [] => None
| (k', v) :: ps' => if String.eqb k' k then Some v else assoc k ps'
end.

(** [v.k] / [v[k]].  The program reads only the names [definitions],
  [properties], [attributes], [relationships], [data], [items], [type],
  [enum], the index [0], and keys it got from [Object.keys] of the same
  value; none of them is inherited from a prototype, so a read is a lookup
  among the own properties and yields [undefined] when there is none. *)
Definition get_prop (v : value) (k : string) : result value :=
ps ← own_props v; Ok (default VUndefined (assoc k ps)).

(** A chain of reads [v.k1.k2...]. *)
Fixpoint get_path (v : value) (ks : list string) : result value :=
match ks with
| [] => Ok v
| k :: ks' => w ← get_prop v k; get_path w ks'
end.

Definition Object_keys (v : value) : result (list string) :=
ps ← own_props v; Ok (ps.*1).

(** [Array.prototype.indexOf] on an array of strings: the first index holding
  [x], or [-1]. *)
Fixpoint indexOf (l : list string) (x : string) : Z :=
match l with
| [] => (-1)%Z
| y :: l' =>
    if String.eqb y x then 0%Z
    else let i := indexOf l' x in if (i <? 0)%Z then (-1)%Z else (i + 1)%Z
end.

Fixpoint drop_chars (n : nat) (s : string) : string :=
match n, s with
| S n', String _ s' => drop_chars n' s'
| _, _ => s
end.

(** [s.replace(pat, rep)] with a string pattern: only the first occurrence
  of [pat] is replaced.  ([rep] holds no [$] pattern in this program.) *)
Fixpoint String_replace (s pat rep : string) : string :=
if String.prefix pat s then rep +:+ drop_chars (String.length pat) s
else match s with
     | EmptyString => EmptyString
     | String c s' => String c (String_replace s' pat rep)
     end.

(** [o[k] = v] on a plain object built by the program, seen through the
    own properties of [o].  Every name is stored as an own property except
    [__proto__], which reaches the setter inherited from [Object.prototype]:
    the prototype of [o] is replaced and its own properties stay as they
    were. *)
Definition store {V : Type} (k : string) (v : V) (o : gmap string V)
  : gmap string V :=
  if String.eqb k "__proto__" then o else <[k := v]> o.

(** [xs.forEach(f)] where the callback updates an accumulator and may throw;
  [xs.reduce(f, init)] is the same loop. *)
Fixpoint forEach {A S : Type} (f : S → A → result S) (xs : list A) (s : S)
: result S :=
match xs with
| [] => Ok s
| x :: xs' => s' ← f s x; forEach f xs' s'
end.

Definition reduce {A S : Type} (f : S → A → result S) (xs : list A) (init : S)
: result S := forEach f xs init.

End Js.
Import Js.

(** ** Options (the documented shape of the constructor argument) *)

Record Whitelist := { wl_resources : option (list string) }.
Record Blacklist := {
  bl_attributes : option (list string);
  bl_relationships : option (list string) }.
Record Options := {
  base : string;
  whitelist : option Whitelist;
  blacklist : option Blacklist }.

(** ** Output *)

Record AttributeModel := { attr_type : value }.
Inductive RelationshipKind := hasMany | hasOne.
Record RelationshipModel := {
  rel_type : RelationshipKind;
  rel_model : value }.
Record Model := {
  attributes : option (gmap string AttributeModel);
  relationships : option (gmap string RelationshipModel) }.
Record OrbitSchema := { models : gmap string Model }.

(** ** serialize *)

(** [options.blacklist && options.blacklist.<field>
     && options.blacklist.<field>.indexOf(prop) >= 0] *)
Definition blacklisted (field : Blacklist → option (list string))
    (options : Options) (prop : string) : bool :=
  match blacklist options with
  | Some b =>
      match field b with
      | Some names => (0 <=? indexOf names prop)%Z
      | None => false
      end
  | None => false
  end.

Definition serialize_attribute (options : Options) (attrProps : value)
    (out : gmap string AttributeModel) (prop : string)
  : result (gmap string AttributeModel) :=
  if blacklisted bl_attributes options prop then Ok out
  else
    propSchema ← get_prop attrProps prop;
    ty ← get_prop propSchema "type";
    Ok (store prop {| attr_type := ty |} out).

Definition serialize_relationship (options : Options) (relProps : value)
    (out : gmap string RelationshipModel) (prop : string)
  : result (gmap string RelationshipModel) :=
  if blacklisted bl_relationships options prop then Ok out
  else
    propSchema ← get_prop relProps prop;
    dataType ← get_path propSchema ["properties"; "data"; "type"];
    if strict_eq_str dataType "array" then
      model ← get_path propSchema
        ["properties"; "data"; "items"; "properties"; "type"; "enum"; "0"];
      Ok (store prop {| rel_type := hasMany; rel_model := model |} out)
    else
      model ← get_path propSchema
        ["properties"; "data"; "properties"; "type"; "enum"; "0"];
      Ok (store prop {| rel_type := hasOne; rel_model := model |} out).

Definition serialize (schema : value) (options : Options) : result Model :=
  attrs ← get_path schema ["properties"; "attributes"];
  outAttrs ←
    (if truthy attrs then
       attrProps ← get_prop attrs "properties";
       names ← Object_keys attrProps;
       out ← forEach (serialize_attribute options attrProps) names ∅;
       Ok (Some out)
     else Ok None);
  rels ← get_path schema ["properties"; "relationships"];
  outRels ←
    (if truthy rels then
       relProps ← get_prop rels "properties";
       names ← Object_keys relProps;
       out ← forEach (serialize_relationship options relProps) names ∅;
       Ok (Some out)
     else Ok None);
  Ok {| attributes := outAttrs; relationships := outRels |}.

(** ** convertToOrbit *)

(** [options.whitelist && options.whitelist.resources
     && options.whitelist.resources.indexOf(type) < 0] *)
Definition not_in_whitelist (options : Options) (type : string) : bool :=
  match whitelist options with
  | Some w =>
      match wl_resources w with
      | Some names => (indexOf names type <? 0)%Z
      | None => false
      end
  | None => false
  end.

Section Transformer.

(** [JSON.parse], which throws on malformed text. *)
Variable JSON_parse : string → result value.

Definition definitions_of (body : value) : result value :=
  match body with
  | VStr text => doc ← JSON_parse text; get_prop doc "definitions"
  | _ => get_prop body "definitions"
  end.

Definition definition_model (options : Options) (entities : value)
    (type : string) : result Model :=
  definition ← get_prop entities type;
  serialize definition options.

Definition convert_type (options : Options) (entities : value)
    (schema : gmap string Model) (type : string)
  : result (gmap string Model) :=
  if not_in_whitelist options type then Ok schema
  else
    let resource := String_replace type ":" "--" in
    model ← definition_model options entities type;
    Ok (store resource model schema).

Definition convertToOrbit (body : value) (options : Options)
  : result OrbitSchema :=
  entities ← definitions_of body;
  types ← Object_keys entities;
  orbitSchema ← reduce (convert_type options entities) types ∅;
  Ok {| models := orbitSchema |}.

End Transformer.

(** ** The transformer on a heap *)

(** The same two functions once more, this time with the objects where
    JavaScript has them: in a heap, reached by reference.  The document is a
    graph of heap objects that the program reads; [{}] and the object
    literals allocate; an assignment [o[k] = v] updates the object [o] refers
    to, in place.  This is the embedding in which it can be said that the
    program leaves its input alone and that two invocations build the same
    thing. *)
Module Heap.

Inductive hvalue : Type :=
  | HUndefined
  | HNull
  | HBool (b : bool)
  | HNum (n : Z)
  | HStr (s : string)
  | HRef (l : nat).

(** An object is the list of its own properties in insertion order. *)
Inductive hobject : Type :=
  | HObj (props : list (string * hvalue))
  | HArr (items : list hvalue).

(** A computation runs on the heap and leaves it changed, also when it
    throws. *)
Definition St (A : Type) : Type := list hobject → result A * list hobject.

#[global] Instance St_ret : MRet St := λ A a h, (Ok a, h).
#[global] Instance St_bind : MBind St := λ A B f m h,
  match m h with
  | (Ok a, h') => f a h'
  | (Throw e, h') => (Throw e, h')
  end.

Definition truthy (v : hvalue) : bool :=
  match v with
  | HUndefined | HNull => false
  | HBool b => b
  | HNum n => negb (n =? 0)%Z
  | HStr s => negb (String.eqb s "")
  | HRef _ => true
  end.

Definition strict_eq_str (v : hvalue) (lit : string) : bool :=
  match v with
  | HStr s => String.eqb s lit
  | _ => false
  end.

Fixpoint chars (s : string) : list hvalue :=
  match s with
  | EmptyString => []
  | String c s' => HStr (String c EmptyString) :: chars s'
  end.

Definition own_props (h : list hobject) (v : hvalue)
  : result (list (string * hvalue)) :=
  match v with
  | HUndefined | HNull => Throw TypeError
  | HBool _ | HNum _ => Ok []
  | HStr s => Ok (imap (λ i c, (index_key i, c)) (chars s))
  | HRef l =>
      match h !! l with
      | Some (HObj props) => Ok props
      | Some (HArr items) => Ok (imap (λ i x, (index_key i, x)) items)
      | None => Ok []
      end
  end.

Fixpoint lookup_prop (k : string) (props : list (string * hvalue))
  : option hvalue :=
  match props with
  | [] => None
  | (k', v) :: props' =>
      if String.eqb k' k then Some v else lookup_prop k props'
  end.

Definition get_prop (h : list hobject) (v : hvalue) (k : string)
  : result hvalue :=
  props ← own_props h v; Ok (default HUndefined (lookup_prop k props)).

Fixpoint get_path (h : list hobject) (v : hvalue) (ks : list string)
  : result hvalue :=
  match ks with
  | [] => Ok v
  | k :: ks' => w ← get_prop h v k; get_path h w ks'
  end.

Definition Object_keys (h : list hobject) (v : hvalue)
  : result (list string) :=
  props ← own_props h v; Ok (props.*1).

(** Evaluating an expression that only reads. *)
Definition read {A : Type} (f : list hobject → result A) : St A :=
  λ h, (f h, h).

(** [{}] and [{ k: v, ... }]: a new object, at the next free location. *)
Definition new_object (props : list (string * hvalue)) : St hvalue :=
  λ h, (Ok (HRef (length h)), (h ++ [HObj props])%list).

Fixpoint assign (k : string) (v : hvalue) (props : list (string * hvalue))
  : list (string * hvalue) :=
  match props with
  | [] => [(k, v)]
  | (k', v') :: props' =>
      if String.eqb k' k then (k', v) :: props'
      else (k', v') :: assign k v props'
  end.

(** [o[k] = v].  The program assigns only to objects it has created with
    [{}]; there the own property [k] is set, unless [k] is [__proto__],
    which leaves the own properties as they are (it replaces the prototype
    of [o], and the program reads no property of an object it has assigned
    to, other than the own [attributes] and [relationships] of [output]).
    Assigning to [undefined] or [null], or (in the strict code of a class)
    to a primitive, throws. *)
Definition set_prop (o : hvalue) (k : string) (v : hvalue) : St unit :=
  λ h,
    match o with
    | HRef l =>
        match h !! l with
        | Some (HObj props) =>
            (Ok (),
             <[l := HObj (if String.eqb k "__proto__" then props
                          else assign k v props)]> h)
        | _ => (Ok (), h)
        end
    | _ => (Throw TypeError, h)
    end.

Fixpoint forEach {A : Type} (f : A → St unit) (xs : list A) : St unit :=
  match xs with
  | [] => mret ()
  | x :: xs' => _ ← f x; forEach f xs'
  end.

(** The callback of the attributes loop. *)
Definition serialize_attribute (options : Options) (schema output : hvalue)
    (prop : string) : St unit :=
  if blacklisted bl_attributes options prop then mret ()
  else
    propSchema ← read (λ h, get_path h schema
                         ["properties"; "attributes"; "properties"; prop]);
    attrs ← read (λ h, get_prop h output "attributes");
    ty ← read (λ h, get_prop h propSchema "type");
    descriptor ← new_object [("type", ty)];
    set_prop attrs prop descriptor.

(** The callback of the relationships loop. *)
Definition serialize_relationship (options : Options)
    (schema output : hvalue) (prop : string) : St unit :=
  if blacklisted bl_relationships options prop then mret ()
  else
    propSchema ← read (λ h, get_path h schema
                         ["properties"; "relationships"; "properties"; prop]);
    dataType ← read (λ h, get_path h propSchema
                       ["properties"; "data"; "type"]);
    if strict_eq_str dataType "array" then
      rels ← read (λ h, get_prop h output "relationships");
      model ← read (λ h, get_path h propSchema
                      ["properties"; "data"; "items"; "properties"; "type";
                       "enum"; "0"]);
      descriptor ← new_object [("type", HStr "hasMany"); ("model", model)];
      set_prop rels prop descriptor
    else
      rels ← read (λ h, get_prop h output "relationships");
      model ← read (λ h, get_path h propSchema
                      ["properties"; "data"; "properties"; "type"; "enum";
                       "0"]);
      descriptor ← new_object [("type", HStr "hasOne"); ("model", model)];
      set_prop rels prop descriptor.

Definition serialize (schema : hvalue) (options : Options) : St hvalue :=
  output ← new_object [];
  attrs ← read (λ h, get_path h schema ["properties"; "attributes"]);
  _ ← (if truthy attrs then
         fresh ← new_object [];
         _ ← set_prop output "attributes" fresh;
         names ← read (λ h,
                    attrProps ← get_path h schema
                      ["properties"; "attributes"; "properties"];
                    Object_keys h attrProps);
         forEach (serialize_attribute options schema output) names
       else mret ());
  rels ← read (λ h, get_path h schema ["properties"; "relationships"]);
  _ ← (if truthy rels then
         fresh ← new_object [];
         _ ← set_prop output "relationships" fresh;
         names ← read (λ h,
                    relProps ← get_path h schema
                      ["properties"; "relationships"; "properties"];
                    Object_keys h relProps);
         forEach (serialize_relationship options schema output) names
       else mret ());
  mret output.

Section Transformer.
(** [JSON.parse], which builds the document it returns in the heap. *)
Variable JSON_parse : string → St hvalue.

Definition definitions_of (body : hvalue) : St hvalue :=
  match body with
  | HStr text =>
      doc ← JSON_parse text; read (λ h, get_prop h doc "definitions")
  | _ => read (λ h, get_prop h body "definitions")
  end.

(** The callback of [reduce]; it returns the accumulator it was given, so
    every round assigns to the same object. *)
Definition convert_type (options : Options) (entities schema : hvalue)
    (type : string) : St unit :=
  if not_in_whitelist options type then mret ()
  else
    let resource := String_replace type ":" "--" in
    definition ← read (λ h, get_prop h entities type);
    model ← serialize definition options;
    set_prop schema resource model.

Definition convertToOrbit (body : hvalue) (options : Options) : St hvalue :=
  entities ← definitions_of body;
  types ← read (λ h, Object_keys h entities);
  schema ← new_object [];
  _ ← forEach (convert_type options entities schema) types;
  new_object [("models", schema)].
End Transformer.

End Heap.

(** ** generate *)

Module Fetcher.

(** What a promise is rejected with: an exception of the program itself or
    a failure reported by a collaborator. *)
Inductive reason : Type :=
  | Thrown (e : error)
  | Failure (message : string).

Inductive settlement (A : Type) : Type :=
  | Pending
  | Fulfilled (a : A)
  | Rejected (r : reason).
Arguments Pending {A}.
Arguments Fulfilled {A} a.
Arguments Rejected {A} r.

(** A call to a collaborator throws on the spot or returns a promise,
    described by how that promise eventually settles. *)
Inductive call (A : Type) : Type :=
  | Throws (r : reason)
  | Returns (p : settlement A).
Arguments Throws {A} r.
Arguments Returns {A} p.

(** [./lib/oauth]: [getToken()] and the [tokenInformation] it leaves
    behind. *)
Record OAuth := {
  getToken : call unit;
  tokenInformation : value }.

(** The request handed to [axios.get]; [bearer] is the value spliced into
    the [Authorization] header. *)
Record Request := {
  url : string;
  baseURL : string;
  bearer : value }.
Record Response := { data : value }.

(** Everything observable once the event loop has run dry: the state of
    the promise [generate] returned, what was written by [console.log],
    and the rejections nobody handled. *)
Record Outcome := {
  promise : settlement OrbitSchema;
  logged : list reason;
  unhandled : list reason }.

Definition quiet (p : settlement OrbitSchema) : Outcome :=
  {| promise := p; logged := []; unhandled := [] |}.

Section Generate.
Variable JSON_parse : string → result value.
Variable oAuth : OAuth.
Variable axios_get : Request → call Response.

(** The body of [.then(response => ...)] with its [.catch]. *)
Definition on_response (options : Options) (r : settlement Response)
  : Outcome :=
  match r with
  | Pending => quiet Pending
  | Rejected err =>
      {| promise := Pending; logged := [err]; unhandled := [] |}
  | Fulfilled response =>
      match convertToOrbit JSON_parse (data response) options with
      | Ok schema => quiet (Fulfilled schema)
      | Throw e =>
          {| promise := Pending; logged := [Thrown e]; unhandled := [] |}
      end
  end.

(** The body of [getToken().then(() => ...)]; an exception in it rejects
    the promise [then] returned, which nothing observes. *)
Definition on_token (options : Options) : Outcome :=
  match get_prop (tokenInformation oAuth) "access_token" with
  | Throw e =>
      {| promise := Pending; logged := []; unhandled := [Thrown e] |}
  | Ok token =>
      match axios_get {| url := "/openapi/jsonapi?_format=json";
                         baseURL := base options;
                         bearer := token |} with
      | Throws r =>
          {| promise := Pending; logged := []; unhandled := [r] |}
      | Returns p => on_response options p
      end
  end.

(** [new Promise((resolve, reject) => { ... })]: an exception in the
    executor rejects the promise; otherwise only [resolve] settles it. *)
Definition generate (options : Options) : Outcome :=
  match getToken oAuth with
  | Throws r => quiet (Rejected r)
  | Returns Pending => quiet Pending
  | Returns (Rejected r) =>
      {| promise := Pending; logged := []; unhandled := [r] |}
  | Returns (Fulfilled _) => on_token options
  end.
End Generate.

End Fetcher.

(** ** writeToFile *)

Module Writer.

(** What [fs.writeFile] does with the callback it is given: throw on the
    spot, call it back with an error or with [null], or never call it. *)
Inductive write_result : Type :=
  | WriteThrows (r : Fetcher.reason)
  | CallsBack (err : option Fetcher.reason)
  | NeverCallsBack.

(** The promise returned by the function [writeToFile(file)] yields, and
    the lines written by [console.log]. *)
Record Outcome := {
  promise : Fetcher.settlement OrbitSchema;
  logged : list string }.

(** [resolve] and [reject] settle a pending promise and do nothing to a
    settled one. *)
Definition settle (p new : Fetcher.settlement OrbitSchema)
  : Fetcher.settlement OrbitSchema :=
  match p with
  | Fetcher.Pending => new
  | _ => p
  end.

Section WriteToFile.
(** [JSON.stringify(schema, null, 2)] and [fs.writeFile]. *)
Variable JSON_stringify : OrbitSchema → result string.
Variable fs_writeFile : string → string → write_result.

(** The callback: [if (err) { reject(err); }], then the log line, then
    [resolve(schema)]. *)
Definition on_written (file : string) (schema : OrbitSchema)
    (err : option Fetcher.reason) : Outcome :=
  let afterCheck :=
    match err with
    | Some e => settle Fetcher.Pending (Fetcher.Rejected e)
    | None => Fetcher.Pending
    end in
  {| promise := settle afterCheck (Fetcher.Fulfilled schema);
     logged := ["Schema saved to " +:+ file] |}.

Definition writeToFile (file : string) (schema : OrbitSchema) : Outcome :=
  match JSON_stringify schema with
  | Throw e =>
      {| promise := Fetcher.Rejected (Fetcher.Thrown e); logged := [] |}
  | Ok text =>
      match fs_writeFile file text with
      | WriteThrows r => {| promise := Fetcher.Rejected r; logged := [] |}
      | NeverCallsBack => {| promise := Fetcher.Pending; logged := [] |}
      | CallsBack err => on_written file schema err
      end
  end.
End WriteToFile.

End Writer.

(** ** Sample documents *)

Definition no_filters : Options :=
  {| base := "https://example.org"; whitelist := None; blacklist := None |}.

(** A parser for callers that always hand over an already-parsed body. *)
Definition reject_text (_ : string) : result value := Throw SyntaxError.

Definition target (names : list string) : value :=
  VObj [("properties",
         VObj [("type", VObj [("enum", VArr (VStr <$> names))])])].

Definition to_one (names : list string) : value :=
  VObj [("properties",
         VObj [("data",
                VObj [("type", VStr "object");
                      ("properties",
                       VObj [("type",
                              VObj [("enum", VArr (VStr <$> names))])])])])].

Definition to_many (names : list string) : value :=
  VObj [("properties",
         VObj [("data",
                VObj [("type", VStr "array"); ("items", target names)])])].

Definition article_def : value :=
  VObj [("properties",
    VObj [("attributes",
           VObj [("properties",
                  VObj [("title", VObj [("type", VStr "string")])])])])].

Definition page_relationships : value :=
  VObj [("author", to_one ["user"]);
        ("comments", to_many ["comment"; "reply"])].

Definition page_def : value :=
  VObj [("properties",
    VObj [("attributes",
           VObj [("properties",
                  VObj [("title", VObj [("type", VStr "string")]);
                        ("body", VObj [("type", VStr "object")])])]);
          ("relationships",
           VObj [("properties", page_relationships)])])].

Definition definitions (defs : list (string * value)) : value :=
  VObj [("definitions", VObj defs)].

Definition article_doc : value := definitions [("node:article", article_def)].

Definition site_doc : value :=
  definitions [("node:article", article_def); ("node:page", page_def)].

Definition only_articles : Options :=
  {| base := "https://example.org";
     whitelist := Some {| wl_resources := Some ["node:article"] |};
     blacklist := None |}.


Definition without_title_and_author : Options :=
  {| base := "https://example.org";
     whitelist := None;
     blacklist := Some {| bl_attributes := Some ["title"];
                          bl_relationships := Some ["author"] |} |}.

Definition article_model : Model :=
  {| attributes := Some {[ "title" := {| attr_type := VStr "string" |} ]};
     relationships := None |}.

Definition page_model : Model :=
  {| attributes :=
       Some {[ "title" := {| attr_type := VStr "string" |};
               "body" := {| attr_type := VStr "object" |} ]};
     relationships :=
       Some {[ "author" := {| rel_type := hasOne; rel_model := VStr "user" |};
               "comments" :=
                 {| rel_type := hasMany; rel_model := VStr "comment" |} ]} |}.

Definition article_schema : OrbitSchema :=
  {| models := {[ "node--article" := article_model ]} |}.

Definition site_schema : OrbitSchema :=
  {| models := {[ "node--article" := article_model;
                  "node--page" := page_model ]} |}.

Definition bare_model : Model :=
  {| attributes := None; relationships := None |}.

(** A type name with two namespace separators. *)
Definition term_doc : value :=
  definitions [("taxonomy:term:tags", VObj [("properties", VObj [])])].

(** A [hasOne] reference whose target type declares no [enum] at all, and
    one whose [enum] is the empty array. *)
Definition to_one_without_enum : value :=
  VObj [("properties",
         VObj [("data",
                VObj [("type", VStr "object");
                      ("properties", VObj [("type", VObj [])])])])].

Definition author_only (descriptor : value) : value :=
  definitions
    [("node:article",
      VObj [("properties",
             VObj [("relationships",
                    VObj [("properties",
                           VObj [("author", descriptor)])])])])].

Definition missing_enum_doc : value := author_only to_one_without_enum.

Definition filtered_article_model : Model :=
  {| attributes := Some ∅; relationships := None |}.

Definition filtered_page_model : Model :=
  {| attributes := Some {[ "body" := {| attr_type := VStr "object" |} ]};
     relationships :=
       Some {[ "comments" :=
                 {| rel_type := hasMany; rel_model := VStr "comment" |} ]} |}.

Definition filtered_schema : OrbitSchema :=
  {| models := {[ "node--article" := filtered_article_model;
                  "node--page" := filtered_page_model ]} |}.

(** A token provider whose promise is rejected, and one that delivers. *)
Definition failing_oAuth : Fetcher.OAuth :=
  {| Fetcher.getToken :=
       Fetcher.Returns (Fetcher.Rejected (Fetcher.Failure "invalid_grant"));
     Fetcher.tokenInformation := VUndefined |}.

Definition working_oAuth : Fetcher.OAuth :=
  {| Fetcher.getToken := Fetcher.Returns (Fetcher.Fulfilled ());
     Fetcher.tokenInformation := VObj [("access_token", VStr "t0ken")] |}.

Definition serve (body : value) (_ : Fetcher.Request)
  : Fetcher.call Fetcher.Response :=
  Fetcher.Returns (Fetcher.Fulfilled {| Fetcher.data := body |}).

(** Two declared names with the same rewritten name. *)
Definition colliding_doc : value :=
  definitions [("node:article", VObj [("properties", VObj [])]);
               ("node--article", article_def)].

(** More sample inputs. *)
Definition nothing_whitelisted : Options :=
  {| base := "https://example.org";
     whitelist := Some {| wl_resources := Some [] |};
     blacklist := None |}.

Definition broken_page_doc : value :=
  definitions [("node:article", article_def); ("node:page", VNull)].

Definition listed_once : Options :=
  {| base := "https://example.org";
     whitelist := Some {| wl_resources := Some ["node:article"; "node:page"] |};
     blacklist := Some {| bl_attributes := Some ["title"];
                          bl_relationships := Some ["author"] |} |}.

Definition listed_twice : Options :=
  {| base := "https://example.net";
     whitelist :=
       Some {| wl_resources :=
                 Some ["node:page"; "node:article"; "node:page"] |};
     blacklist := Some {| bl_attributes := Some ["title"; "title"];
                          bl_relationships := Some ["author"] |} |}.

Definition without_title : Options :=
  {| base := "https://example.org";
     whitelist := None;
     blacklist := Some {| bl_attributes := Some ["title"];
                          bl_relationships := None |} |}.

Definition filtered_attributes_page_model : Model :=
  {| attributes := Some {[ "body" := {| attr_type := VStr "object" |} ]};
     relationships := relationships page_model |}.

Definition null_title_def : value :=
  VObj [("properties",
    VObj [("attributes",
           VObj [("properties", VObj [("title", VNull)])])])].

(** A parser that knows one text. *)
Definition parse_site (text : string) : result value :=
  if String.eqb text "site" then Ok site_doc else Throw SyntaxError.

Definition refuse (_ : Fetcher.Request) : Fetcher.call Fetcher.Response :=
  Fetcher.Returns (Fetcher.Rejected (Fetcher.Failure "503")).

Definition stringify_braces (_ : OrbitSchema) : result string := Ok "{}".

Definition disk_ok (_ _ : string) : Writer.write_result :=
  Writer.CallsBack None.

Definition disk_full (_ _ : string) : Writer.write_result :=
  Writer.CallsBack (Some (Fetcher.Failure "ENOSPC")).

(** Documents that use the name [__proto__]. *)
Definition proto_doc : value :=
  definitions [("__proto__", article_def); ("node:article", article_def)].

Definition proto_and_articles : Options :=
  {| base := "https://example.org";
     whitelist := Some {| wl_resources := Some ["__proto__"; "node:article"] |};
     blacklist := None |}.

Definition proto_members_def : value :=
  VObj [("properties",
    VObj [("attributes",
           VObj [("properties",
                  VObj [("__proto__", VObj [("type", VStr "string")]);
                        ("title", VObj [("type", VStr "string")])])]);
          ("relationships",
           VObj [("properties",
                  VObj [("__proto__", to_one ["user"])])])])].

Definition proto_members_model : Model :=
  {| attributes := Some {[ "title" := {| attr_type := VStr "string" |} ]};
     relationships := Some ∅ |}.

Definition colliding_schema : OrbitSchema :=
  {| models := {[ "node--article" := bare_model ]} |}.



(** ** Vocabulary of the properties *)

(** The key the specification describes: every namespace separator of the
    type name rewritten to a double hyphen, nothing else changed. *)
Fixpoint rewrite_separators (typeName : string) : string :=
  match typeName with
  | EmptyString => EmptyString
  | String c rest =>
      if Ascii.eqb c ":"%char then "--" +:+ rewrite_separators rest
      else String c (rewrite_separators rest)
  end.

Fixpoint separators (typeName : string) : nat :=
  match typeName with
  | EmptyString => 0
  | String c rest =>
      if Ascii.eqb c ":"%char then S (separators rest) else separators rest
  end.

(** [prop] is listed in the chosen field of the configured blacklist. *)
Definition in_blacklist (field : Blacklist → option (list string))
    (options : Options) (prop : string) : Prop :=
  ∃ b names, blacklist options = Some b ∧ field b = Some names ∧ prop ∈ names.

Definition is_object (v : value) : Prop := ∃ ps, v = VObj ps.

(** The target-type enumeration of a relationship's data reference: the one
    of its items when the reference is a collection. *)
Definition target_enum (data : value) : result value :=
  dataType ← get_prop data "type";
  if strict_eq_str dataType "array"
  then get_path data ["items"; "properties"; "type"; "enum"]
  else get_path data ["properties"; "type"; "enum"].

(** The three loops of the transformer share one shape: skip the entry, or
    compute a value for it and store the value under a key. *)
Section Collect.
Context {A V : Type}.
Variables (skip : A → bool) (key : A → string) (compute : A → result V).

Definition collect (acc : gmap string V) (x : A) : result (gmap string V) :=
  if skip x then Ok acc else v ← compute x; Ok (store (key x) v acc).
End Collect.

Definition attribute_model (attrProps : value) (prop : string)
  : result AttributeModel :=
  propSchema ← get_prop attrProps prop;
  ty ← get_prop propSchema "type";
  Ok {| attr_type := ty |}.

Definition relationship_model (relProps : value) (prop : string)
  : result RelationshipModel :=
  propSchema ← get_prop relProps prop;
  dataType ← get_path propSchema ["properties"; "data"; "type"];
  if strict_eq_str dataType "array" then
    model ← get_path propSchema
      ["properties"; "data"; "items"; "properties"; "type"; "enum"; "0"];
    Ok {| rel_type := hasMany; rel_model := model |}
  else
    model ← get_path propSchema
      ["properties"; "data"; "properties"; "type"; "enum"; "0"];
    Ok {| rel_type := hasOne; rel_model := model |}.

(** One of the two halves of [serialize]: the sub-map is built exactly when
    the member of the definition is truthy. *)
Definition submap_built {V} (member : value) (skip : string → bool)
    (compute : value → string → result V) (out : option (gmap string V))
  : Prop :=
  if truthy member then
    ∃ props names m,
      get_prop member "properties" = Ok props ∧
      Object_keys props = Ok names ∧
      forEach (collect skip id (compute props)) names ∅ = Ok m ∧
      out = Some m
  else out = None.

(** [type] passes the whitelist test: no resource whitelist is configured,
    or [type] is listed in it. *)
Definition passes_whitelist (options : Options) (type : string) : Prop :=
  ∀ w names,
    whitelist options = Some w → wl_resources w = Some names → type ∈ names.

Definition is_text (v : value) : Prop := ∃ text, v = VStr text.

(** [after] is [before] without the entries whose name is skipped; an
    absent sub-map stays absent. *)
Definition restricted {V} (skip : string → bool)
    (before after : option (gmap string V)) : Prop :=
  match before, after with
  | Some m1, Some m2 => ∀ prop, m2 !! prop = if skip prop then None else m1 !! prop
  | None, None => True
  | _, _ => False
  end.

Definition falsy_members_def : value :=
  VObj [("properties", VObj [("attributes", VNull); ("relationships", VNum 0)])].

(** *** Heaps and the documents and schemas they hold *)

Fixpoint all2 {A B : Type} (R : A → B → Prop) (xs : list A) (ys : list B)
  : Prop :=
  match xs, ys with
  | [], [] => True
  | x :: xs', y :: ys' => R x y ∧ all2 R xs' ys'
  | _, _ => False
  end.

(** The heap value [v] holds the document [t] in the heap [h]: the objects
    reached from [v] have the properties of [t], in the same order. *)
Fixpoint represents (h : list Heap.hobject) (t : value) (v : Heap.hvalue)
    {struct t} : Prop :=
  match t with
  | VUndefined => v = Heap.HUndefined
  | VNull => v = Heap.HNull
  | VBool b => v = Heap.HBool b
  | VNum n => v = Heap.HNum n
  | VStr s => v = Heap.HStr s
  | VArr ts =>
      ∃ l vs, v = Heap.HRef l ∧ h !! l = Some (Heap.HArr vs)
              ∧ all2 (represents h) ts vs
  | VObj tps =>
      ∃ l ps, v = Heap.HRef l ∧ h !! l = Some (Heap.HObj ps)
              ∧ all2 (λ tp p, tp.1 = p.1 ∧ represents h tp.2 p.2) tps ps
  end.

(** Every object of [h] is still there, unchanged, in [h']. *)
Definition keeps (h h' : list Heap.hobject) : Prop :=
  ∀ l o, h !! l = Some o → h' !! l = Some o.

Definition opt_rel {A B : Type} (R : A → B → Prop) (a : option A)
    (b : option B) : Prop :=
  match a, b with
  | Some x, Some y => R x y
  | None, None => True
  | _, _ => False
  end.

(** The objects of [h] at the locations selected by [P] are still there,
    unchanged, in [h']. *)
Definition unchanged (P : nat → Prop) (h h' : list Heap.hobject) : Prop :=
  ∀ l o, P l → h !! l = Some o → h' !! l = Some o.

(** Two results agree: both values, related by [R], or the same
    exception. *)
Definition res_rel {A B : Type} (R : A → B → Prop) (r : result A)
    (r' : result B) : Prop :=
  match r, r' with
  | Ok a, Ok b => R a b
  | Throw e, Throw e' => e = e'
  | _, _ => False
  end.

(** The property list [ps] holds the finite map [m], key by key; the order
    of the properties does not matter. *)
Definition is_map {X : Type} (R : X → Heap.hvalue → Prop)
    (m : gmap string X) (ps : list (string * Heap.hvalue)) : Prop :=
  ∀ k, opt_rel R (m !! k) (Heap.lookup_prop k ps).

Definition kind_name (k : RelationshipKind) : string :=
  match k with
  | hasMany => "hasMany"
  | hasOne => "hasOne"
  end.

(** What the output is made of.  Each object sits at a location not below
    [lo]; the values copied from the document are read in [h]. *)
Definition is_attribute (lo : nat) (h H : list Heap.hobject)
    (x : AttributeModel) (v : Heap.hvalue) : Prop :=
  ∃ l ty, v = Heap.HRef l ∧ (lo ≤ l)%nat
          ∧ H !! l = Some (Heap.HObj [("type", ty)])
          ∧ represents h (attr_type x) ty.

Definition is_relationship (lo : nat) (h H : list Heap.hobject)
    (x : RelationshipModel) (v : Heap.hvalue) : Prop :=
  ∃ l model, v = Heap.HRef l ∧ (lo ≤ l)%nat
             ∧ H !! l = Some (Heap.HObj
                                [("type", Heap.HStr (kind_name (rel_type x)));
                                 ("model", model)])
             ∧ represents h (rel_model x) model.

Definition is_submap {X : Type}
    (R : nat → list Heap.hobject → list Heap.hobject → X → Heap.hvalue → Prop)
    (lo : nat) (h H : list Heap.hobject) (m : gmap string X)
    (v : Heap.hvalue) : Prop :=
  ∃ l ps, v = Heap.HRef l ∧ (lo ≤ l)%nat ∧ H !! l = Some (Heap.HObj ps)
          ∧ is_map (R lo h H) m ps.

Definition is_model (lo : nat) (h H : list Heap.hobject) (M : Model)
    (v : Heap.hvalue) : Prop :=
  ∃ l ps, v = Heap.HRef l ∧ (lo ≤ l)%nat ∧ H !! l = Some (Heap.HObj ps)
          ∧ opt_rel (is_submap is_attribute lo h H) (attributes M)
              (Heap.lookup_prop "attributes" ps)
          ∧ opt_rel (is_submap is_relationship lo h H) (relationships M)
              (Heap.lookup_prop "relationships" ps)
          ∧ ∀ k, k ≠ "attributes" → k ≠ "relationships"
                 → Heap.lookup_prop k ps = None.

(** The heap value [v] holds the schema [S] in [H], in objects at locations
    not below [lo]. *)
Definition is_schema (lo : nat) (h H : list Heap.hobject) (S : OrbitSchema)
    (v : Heap.hvalue) : Prop :=
  ∃ l s ps, v = Heap.HRef l ∧ (lo ≤ l)%nat
            ∧ H !! l = Some (Heap.HObj [("models", Heap.HRef s)])
            ∧ (lo ≤ s)%nat ∧ H !! s = Some (Heap.HObj ps)
            ∧ is_map (is_model lo h H) (models S) ps.

(** [JSON.parse] on the heap does what [parse] does on texts: it throws the
    same exception, or builds the same document, and it changes no object
    that was there. *)
Definition parser_refines (JSON_parse_h : string → Heap.St Heap.hvalue)
    (parse : string → result value) : Prop :=
  ∀ text H,
    keeps H (JSON_parse_h text H).2
    ∧ match (JSON_parse_h text H).1, parse text with
      | Ok v, Ok t => represents (JSON_parse_h text H).2 t v
      | Throw e, Throw e' => e = e'
      | _, _ => False
      end.

(** How a computation on the heap [H] stands to a computation on
    documents: both return, with values and a final heap that satisfy [Q],
    or both throw the same exception, with a final heap that satisfies
    [E]. *)
Definition sim {A B : Type} (c : Heap.St A) (H : list Heap.hobject)
    (p : result B) (Q : A → B → list Heap.hobject → Prop)
    (E : list Heap.hobject → Prop) : Prop :=
  match c H, p with
  | (Ok a, H'), Ok b => Q a b H'
  | (Throw e, H'), Throw e' => e = e' ∧ E H'
  | _, _ => False
  end.

(** Building the members of an array or object one after the other. *)
Section AllocAll.
Context {A B : Type} (f : A → list Heap.hobject → B * list Heap.hobject).

Fixpoint alloc_all (xs : list A) (h : list Heap.hobject)
  : list B * list Heap.hobject :=
  match xs with
  | [] => ([], h)
  | x :: xs' =>
      let '(y, h1) := f x h in
      let '(ys, h2) := alloc_all xs' h1 in
      (y :: ys, h2)
  end.
End AllocAll.

(** The document [t] built in the heap [h], members first: what
    [JSON.parse] and the HTTP client do with a document they have read. *)
Fixpoint alloc (t : value) (h : list Heap.hobject) {struct t}
  : Heap.hvalue * list Heap.hobject :=
  match t with
  | VUndefined => (Heap.HUndefined, h)
  | VNull => (Heap.HNull, h)
  | VBool b => (Heap.HBool b, h)
  | VNum n => (Heap.HNum n, h)
  | VStr s => (Heap.HStr s, h)
  | VArr ts =>
      let '(vs, h') := alloc_all alloc ts h in
      (Heap.HRef (length h'), (h' ++ [Heap.HArr vs])%list)
  | VObj tps =>
      let '(ps, h') :=
        alloc_all (λ '(k, t) h, let '(v, h1) := alloc t h in ((k, v), h1))
          tps h in
      (Heap.HRef (length h'), (h' ++ [Heap.HObj ps])%list)
  end.

(** A parser of texts, run on the heap: the document it reads is built in
    fresh objects. *)
Definition parse_on_heap (parse : string → result value) (text : string)
  : Heap.St Heap.hvalue :=
  λ h, match parse text with
       | Ok t => let '(v, h') := alloc t h in (Ok v, h')
       | Throw e => (Throw e, h)
       end.

(** The document of the examples, built in an empty heap. *)
Definition site_body : Heap.hvalue := (alloc site_doc []).1.
Definition site_heap : list Heap.hobject := (alloc site_doc []).2.

(* ================================================================== *)
(** * Properties *)

(** ** The exception monad *)

Lemma bind_Ok {A B} (m : result A) (f : A → result B) (b : B) :
  m ≫= f = Ok b ↔ ∃ a, m = Ok a ∧ f a = Ok b.
Proof.
  destruct m as [a|e]; simpl; split.
  - intros H. by exists a.
  - by intros (a' & [= <-] & H).
  - done.
  - by intros (a' & ? & _).
Qed.

Lemma bind_Throw {A B} (m : result A) (f : A → result B) (e : error) :
  m ≫= f = Throw e ↔ m = Throw e ∨ ∃ a, m = Ok a ∧ f a = Throw e.
Proof.
  destruct m as [a|e']; simpl; split.
  - intros H. right. by exists a.
  - intros [?|(a' & [= <-] & H)]; done.
  - intros [= <-]. by left.
  - intros [[= <-]|(a' & ? & _)]; done.
Qed.

(** ** indexOf *)

Lemma indexOf_nonneg (l : list string) (x : string) :
  (0 ≤ indexOf l x)%Z ↔ x ∈ l.
Proof.
  induction l as [|y l IH]; simpl.
  - split; [lia|]. by intros ?%elem_of_nil.
  - rewrite elem_of_cons. destruct (String.eqb_spec y x) as [->|Hne].
    + split; [by left | lia].
    + destruct (Z.ltb_spec (indexOf l x) 0) as [Hlt|Hge].
      * split; [lia|]. intros [->|Hin]; [done|]. apply IH in Hin. lia.
      * split; [|lia]. intros _. right. apply IH. lia.
Qed.

Lemma blacklisted_spec field options prop :
  blacklisted field options prop = true ↔ in_blacklist field options prop.
Proof.
  unfold blacklisted, in_blacklist.
  destruct (blacklist options) as [b|]; [|split; [done|by intros (?&?&?&_)]].
  destruct (field b) as [names|] eqn:Hf.
  - rewrite Z.leb_le, indexOf_nonneg. split.
    + intros Hin. by exists b, names.
    + by intros (b' & names' & [= <-] & Hf' & Hin); simplify_eq.
  - split; [done|]. by intros (b' & names' & [= <-] & Hf' & _); simplify_eq.
Qed.

Lemma not_blacklisted_spec field options prop :
  blacklisted field options prop = false ↔ ¬ in_blacklist field options prop.
Proof.
  rewrite <- blacklisted_spec. by destruct (blacklisted field options prop).
Qed.

Lemma not_in_whitelist_configured options w names type :
  whitelist options = Some w → wl_resources w = Some names →
  not_in_whitelist options type = false ↔ type ∈ names.
Proof.
  intros Hw Hn. unfold not_in_whitelist. rewrite Hw, Hn.
  rewrite Z.ltb_ge. apply indexOf_nonneg.
Qed.


(** ** Loops that collect into a map *)

Lemma forEach_ext {A S} (f g : S → A → result S) xs s :
  (∀ s x, f s x = g s x) → forEach f xs s = forEach g xs s.
Proof.
  intros Hfg. revert s. induction xs as [|x xs IH]; intros s; simpl; [done|].
  rewrite Hfg. destruct (g s x); simpl; [apply IH | done].
Qed.

(** What [store] does to lookups. *)
Lemma store_proto {V} (v : V) (m : gmap string V) : store "__proto__" v m = m.
Proof. reflexivity. Qed.

Lemma store_insert {V} (k : string) (v : V) (m : gmap string V) :
  k ≠ "__proto__" → store k v m = <[k := v]> m.
Proof.
  intros Hk. unfold store. by destruct (String.eqb_spec k "__proto__").
Qed.

Lemma lookup_store_eq {V} (k : string) (v : V) (m : gmap string V) :
  k ≠ "__proto__" → store k v m !! k = Some v.
Proof. intros Hk. rewrite store_insert by done. apply lookup_insert_eq. Qed.

Lemma lookup_store_ne {V} (k j : string) (v : V) (m : gmap string V) :
  k ≠ j → store k v m !! j = m !! j.
Proof.
  intros Hkj. unfold store. destruct (String.eqb k "__proto__"); [done|].
  by apply lookup_insert_ne.
Qed.

Lemma lookup_store_inv {V} (k j : string) (v w : V) (m : gmap string V) :
  store k v m !! j = Some w →
  (k = j ∧ k ≠ "__proto__" ∧ w = v) ∨ m !! j = Some w.
Proof.
  unfold store. destruct (String.eqb_spec k "__proto__") as [->|Hk];
    [by right|].
  destruct (decide (k = j)) as [->|Hkj].
  - rewrite lookup_insert_eq. intros [= <-]. by left.
  - rewrite lookup_insert_ne by done. by right.
Qed.

Lemma lookup_store_mono {V} (k j : string) (v : V) (m : gmap string V) :
  is_Some (m !! j) → is_Some (store k v m !! j).
Proof.
  intros Hj. unfold store. destruct (String.eqb k "__proto__"); [done|].
  by apply lookup_insert_is_Some'; right.
Qed.

Section CollectFacts.
Context {A V : Type}.
Variables (skip : A → bool) (key : A → string) (compute : A → result V).
Local Abbreviation step := (collect skip key compute).

(** Whatever ends up in the map was there before or was computed from an
    entry that was not skipped. *)
Lemma collect_lookup_inv xs acc out k v :
  forEach step xs acc = Ok out → out !! k = Some v →
  acc !! k = Some v
  ∨ ∃ x, x ∈ xs ∧ skip x = false ∧ key x = k ∧ compute x = Ok v.
Proof.
  revert acc. induction xs as [|x xs IH]; intros acc Hrun Hk; simpl in Hrun.
  - left. by simplify_eq.
  - apply bind_Ok in Hrun as (acc' & Hstep & Hrun).
    destruct (IH _ Hrun Hk) as [Hacc|(y & Hy & ? & ? & ?)].
    + unfold collect in Hstep. destruct (skip x) eqn:Hs.
      * left. by simplify_eq.
      * apply bind_Ok in Hstep as (w & Hw & [= <-]).
        apply lookup_store_inv in Hacc as [(Hkx & _ & ->)|Hacc];
          [|by left].
        right. exists x. split_and!; [left | done..].
    + right. exists y. split_and!; [by right | done..].
Qed.

(** Nothing is ever stored under [__proto__]. *)
Lemma collect_no_proto xs acc out :
  forEach step xs acc = Ok out →
  acc !! "__proto__" = None → out !! "__proto__" = None.
Proof.
  revert acc. induction xs as [|x xs IH]; intros acc Hrun Hacc;
    simpl in Hrun.
  - by simplify_eq.
  - apply bind_Ok in Hrun as (acc' & Hstep & Hrun).
    apply (IH _ Hrun). unfold collect in Hstep. destruct (skip x).
    + by simplify_eq.
    + apply bind_Ok in Hstep as (w & Hw & [= <-]).
      destruct (store (key x) w acc !! "__proto__") as [u|] eqn:Hu; [|done].
      apply lookup_store_inv in Hu as [(Heq & Hne & _)|Hu];
        [contradiction | congruence].
Qed.

Lemma collect_lookup_mono xs acc out k :
  forEach step xs acc = Ok out → is_Some (acc !! k) → is_Some (out !! k).
Proof.
  revert acc. induction xs as [|x xs IH]; intros acc Hrun Hk; simpl in Hrun.
  - by simplify_eq.
  - apply bind_Ok in Hrun as (acc' & Hstep & Hrun).
    apply (IH _ Hrun). unfold collect in Hstep. destruct (skip x).
    + by simplify_eq.
    + apply bind_Ok in Hstep as (w & Hw & [= <-]).
      by apply lookup_store_mono.
Qed.

(** Every entry that was not skipped and whose key is not [__proto__] left
    a value under its key: the one computed from some entry (itself, or a
    later one) with that key. *)
Lemma collect_lookup_some xs acc out x :
  forEach step xs acc = Ok out → x ∈ xs → skip x = false →
  key x ≠ "__proto__" →
  ∃ y v, y ∈ xs ∧ skip y = false ∧ key y = key x ∧ compute y = Ok v
         ∧ out !! key x = Some v.
Proof.
  revert acc. induction xs as [|z xs IH]; intros acc Hrun Hin Hs Hkey.
  - by apply elem_of_nil in Hin.
  - simpl in Hrun. apply bind_Ok in Hrun as (acc' & Hstep & Hrun).
    apply elem_of_cons in Hin as [->|Hxs].
    + unfold collect in Hstep. rewrite Hs in Hstep.
      apply bind_Ok in Hstep as (w & Hw & [= <-]).
      destruct (collect_lookup_mono _ _ _ (key z) Hrun) as [v Hout].
      { rewrite lookup_store_eq by done. by eexists. }
      destruct (collect_lookup_inv _ _ _ _ _ Hrun Hout)
        as [Hacc|(y & ? & ? & ? & ?)].
      * rewrite lookup_store_eq in Hacc by done. simplify_eq.
        exists z, v. split_and!; [left | done..].
      * exists y, v. split_and!; [by right | done..].
    + destruct (IH _ Hrun Hxs Hs Hkey) as (y & v & ? & ? & ? & ? & ?).
      exists y, v. split_and!; [by right | done..].
Qed.

(** An entry that is not skipped and whose computation throws makes the
    whole loop throw (the exception of the first such entry). *)
Lemma collect_throws xs acc x e :
  x ∈ xs → skip x = false → compute x = Throw e →
  ∃ y e', y ∈ xs ∧ skip y = false ∧ compute y = Throw e'
          ∧ forEach step xs acc = Throw e'.
Proof.
  revert acc. induction xs as [|z xs IH]; intros acc Hin Hs He.
  - by apply elem_of_nil in Hin.
  - change (forEach step (z :: xs) acc)
      with (step acc z ≫= forEach step xs).
    destruct (skip z) eqn:Hsz.
    + assert (step acc z = Ok acc) as -> by (unfold collect; by rewrite Hsz).
      apply elem_of_cons in Hin as [->|Hxs]; [congruence|].
      destruct (IH acc Hxs Hs He) as (y & e' & ? & ? & ? & ?).
      exists y, e'. split_and!; [by right | done..].
    + destruct (compute z) as [w|e0] eqn:Hz.
      * assert (step acc z = Ok (store (key z) w acc)) as ->
          by (unfold collect; by rewrite Hsz, Hz).
        apply elem_of_cons in Hin as [->|Hxs]; [congruence|].
        destruct (IH (store (key z) w acc) Hxs Hs He)
          as (y & e' & ? & ? & ? & ?).
        exists y, e'. split_and!; [by right | done..].
      * assert (step acc z = Throw e0) as ->
          by (unfold collect; by rewrite Hsz, Hz).
        exists z, e0. split_and!; [left | done..].
Qed.

(** The keys of the result, when the loop starts from the empty map. *)
Lemma collect_dom xs out k :
  forEach step xs ∅ = Ok out →
  k ∈ dom out ↔
  k ≠ "__proto__" ∧ ∃ x, x ∈ xs ∧ skip x = false ∧ key x = k.
Proof.
  intros Hrun. rewrite elem_of_dom. split.
  - intros [v Hv]. split.
    + intros ->. by rewrite (collect_no_proto _ _ _ Hrun) in Hv.
    + destruct (collect_lookup_inv _ _ _ _ _ Hrun Hv)
        as [Hacc|(x & ? & ? & ? & ?)]; [by rewrite lookup_empty in Hacc|].
      by exists x.
  - intros (Hk & x & Hin & Hs & <-).
    destruct (collect_lookup_some _ _ _ _ Hrun Hin Hs Hk)
      as (y & v & _ & _ & _ & _ & Hout).
    by exists v.
Qed.
End CollectFacts.

(** With distinct keys among the entries that are stored, the result has
    one key per such entry. *)
Lemma collect_size {A V} (skip : A → bool) (key : A → string)
    (compute : A → result V) xs out :
  forEach (collect skip key compute) xs ∅ = Ok out →
  NoDup (key <$> filter (λ x, skip x = false ∧ key x ≠ "__proto__") xs) →
  size out
  = length (filter (λ x, skip x = false ∧ key x ≠ "__proto__") xs).
Proof.
  intros Hrun Hnodup.
  assert (dom out
          = list_to_set
              (key <$> filter (λ x, skip x = false ∧ key x ≠ "__proto__") xs))
    as Hdom.
  { apply set_eq. intros k.
    rewrite (collect_dom _ _ _ _ _ k Hrun), elem_of_list_to_set,
      list_elem_of_fmap.
    split.
    - intros (Hk & x & Hin & Hs & <-). exists x. split; [done|].
      by apply list_elem_of_filter.
    - intros (x & -> & [[Hs Hk] Hin]%list_elem_of_filter).
      split; [done|]. by exists x. }
  rewrite <- size_dom, Hdom, size_list_to_set by done.
  by rewrite length_fmap.
Qed.

(** The loop returns when every entry that is not skipped has a value. *)
Lemma collect_succeeds {A V} (skip : A → bool) (key : A → string)
    (compute : A → result V) xs acc :
  (∀ x, x ∈ xs → skip x = false → ∃ v, compute x = Ok v) →
  ∃ out, forEach (collect skip key compute) xs acc = Ok out.
Proof.
  revert acc. induction xs as [|x xs IH]; intros acc Hall; [by eexists|].
  change (forEach (collect skip key compute) (x :: xs) acc)
    with (collect skip key compute acc x
          ≫= forEach (collect skip key compute) xs).
  destruct (skip x) eqn:Hs.
  - assert (collect skip key compute acc x = Ok acc) as ->
      by (unfold collect; by rewrite Hs).
    apply IH. intros y Hy. apply Hall. by right.
  - destruct (Hall x) as [v Hv]; [left | done |].
    assert (collect skip key compute acc x = Ok (store (key x) v acc)) as ->
      by (unfold collect; by rewrite Hs, Hv).
    apply IH. intros y Hy. apply Hall. by right.
Qed.

(** ** Reading values *)

Lemma revapp_nonnil (d d' : Decimal.uint) :
  d' ≠ Decimal.Nil → Decimal.revapp d d' ≠ Decimal.Nil.
Proof.
  revert d'. induction d; intros d' Hd'; simpl; try done; by apply IHd.
Qed.

Lemma to_little_uint_nonnil (n : nat) (acc : Decimal.uint) :
  acc ≠ Decimal.Nil → Nat.to_little_uint n acc ≠ Decimal.Nil.
Proof.
  revert acc. induction n as [|n IH]; intros acc Hacc; simpl; [done|].
  apply IH. by destruct acc.
Qed.

Lemma to_uint_nonnil (n : nat) : Nat.to_uint n ≠ Decimal.Nil.
Proof.
  unfold Nat.to_uint, Decimal.rev.
  pose proof (to_little_uint_nonnil n Decimal.zero) as Hn.
  destruct (Nat.to_little_uint n Decimal.zero) as [|d|d|d|d|d|d|d|d|d|d];
    [by exfalso; apply Hn|..]; simpl; by apply revapp_nonnil.
Qed.

(** An array index never spells [properties]. *)
Lemma index_key_not_properties (i : nat) :
  String.eqb (index_key i) "properties" = false.
Proof.
  unfold index_key. pose proof (to_uint_nonnil i) as Hi.
  by destruct (Nat.to_uint i).
Qed.

Lemma assoc_indexed (g : nat → string) (k : string) (xs : list value) :
  (∀ i, String.eqb (g i) k = false) →
  assoc k (imap (λ i x, (g i, x)) xs) = None.
Proof.
  revert g. induction xs as [|x xs IH]; intros g Hg; simpl; [done|].
  rewrite Hg. apply (IH (g ∘ S)). intros i. apply Hg.
Qed.

Lemma Object_keys_defined (v : value) (names : list string) :
  Object_keys v = Ok names → v ≠ VUndefined ∧ v ≠ VNull.
Proof. by destruct v. Qed.

(** Only an object can hold a [properties] member whose keys can be
    listed. *)
Lemma properties_holder_is_object (v p : value) (names : list string) :
  get_prop v "properties" = Ok p → Object_keys p = Ok names → is_object v.
Proof.
  intros Hp [Hu _]%Object_keys_defined. unfold get_prop in Hp.
  destruct v as [| |b|n|s|xs|ps]; simpl in Hp; try done.
  - by simplify_eq.
  - by simplify_eq.
  - rewrite assoc_indexed in Hp by apply index_key_not_properties.
    by simplify_eq.
  - rewrite assoc_indexed in Hp by apply index_key_not_properties.
    by simplify_eq.
  - by exists ps.
Qed.

Lemma is_object_truthy (v : value) : is_object v → truthy v = true.
Proof. by intros [ps ->]. Qed.

Lemma get_path_app (v : value) (ks ks' : list string) :
  get_path v (ks ++ ks') = (w ← get_path v ks; get_path w ks').
Proof.
  revert v. induction ks as [|k ks IH]; intros v; simpl; [done|].
  destruct (get_prop v k); simpl; [apply IH | done].
Qed.

Lemma get_path_snoc_Ok (v w : value) (ks : list string) (k : string) :
  get_path v (ks ++ [k]) = Ok w ↔
  ∃ u, get_path v ks = Ok u ∧ get_prop u k = Ok w.
Proof.
  rewrite get_path_app, bind_Ok. simpl.
  split; intros (u & Hu & Hk); exists u; split; try done.
  - by apply bind_Ok in Hk as (w' & Hw' & [= <-]).
  - by rewrite Hk.
Qed.

(** The first declared value of an enumeration. *)
Lemma get_prop_first (x : value) (xs : list value) :
  get_prop (VArr (x :: xs)) "0" = Ok x.
Proof. reflexivity. Qed.

Lemma get_prop_first_empty : get_prop (VArr []) "0" = Ok VUndefined.
Proof. reflexivity. Qed.

(** ** The loops of the program are collecting loops *)

Lemma serialize_attribute_collect options attrProps out prop :
  serialize_attribute options attrProps out prop
  = collect (blacklisted bl_attributes options) id
      (attribute_model attrProps) out prop.
Proof.
  unfold serialize_attribute, collect, attribute_model.
  destruct (blacklisted _ _ _); [done|].
  destruct (get_prop attrProps prop) as [ps|]; simpl; [|done].
  by destruct (get_prop ps "type").
Qed.

Lemma serialize_relationship_collect options relProps out prop :
  serialize_relationship options relProps out prop
  = collect (blacklisted bl_relationships options) id
      (relationship_model relProps) out prop.
Proof.
  unfold serialize_relationship, collect, relationship_model.
  destruct (blacklisted _ _ _); [done|].
  destruct (get_prop relProps prop) as [ps|]; cbn -[get_path]; [|done].
  destruct (get_path ps ["properties"; "data"; "type"]) as [ty|];
    cbn -[get_path]; [|done].
  destruct (strict_eq_str ty "array").
  - by destruct (get_path ps _).
  - by destruct (get_path ps _).
Qed.

Lemma convert_type_collect options entities schema type :
  convert_type options entities schema type
  = collect (not_in_whitelist options) (λ t, String_replace t ":" "--")
      (definition_model options entities) schema type.
Proof. reflexivity. Qed.

(** ** What a successful [serialize] did *)

Lemma serialize_inv schema options out :
  serialize schema options = Ok out →
  ∃ attrs rels,
    get_path schema ["properties"; "attributes"] = Ok attrs ∧
    get_path schema ["properties"; "relationships"] = Ok rels ∧
    submap_built attrs (blacklisted bl_attributes options)
      attribute_model (attributes out) ∧
    submap_built rels (blacklisted bl_relationships options)
      relationship_model (relationships out).
Proof.
  unfold serialize. intros H.
  apply bind_Ok in H as (attrs & Hattrs & H).
  apply bind_Ok in H as (outAttrs & HoutAttrs & H).
  apply bind_Ok in H as (rels & Hrels & H).
  apply bind_Ok in H as (outRels & HoutRels & [= <-]).
  exists attrs, rels. split_and!; [done..| |]; unfold submap_built; simpl.
  - destruct (truthy attrs); [|by simplify_eq].
    apply bind_Ok in HoutAttrs as (props & Hprops & H).
    apply bind_Ok in H as (names & Hnames & H).
    apply bind_Ok in H as (m & Hm & [= <-]).
    exists props, names, m. split_and!; try done.
    rewrite <- Hm. apply forEach_ext. intros.
    symmetry. apply serialize_attribute_collect.
  - destruct (truthy rels); [|by simplify_eq].
    apply bind_Ok in HoutRels as (props & Hprops & H).
    apply bind_Ok in H as (names & Hnames & H).
    apply bind_Ok in H as (m & Hm & [= <-]).
    exists props, names, m. split_and!; try done.
    rewrite <- Hm. apply forEach_ext. intros.
    symmetry. apply serialize_relationship_collect.
Qed.

(** ** What a successful [convertToOrbit] did *)

Lemma convertToOrbit_inv JSON_parse body options out :
  convertToOrbit JSON_parse body options = Ok out →
  ∃ entities types,
    definitions_of JSON_parse body = Ok entities ∧
    Object_keys entities = Ok types ∧
    forEach (collect (not_in_whitelist options)
               (λ t, String_replace t ":" "--")
               (definition_model options entities)) types ∅
    = Ok (models out).
Proof.
  unfold convertToOrbit, reduce. intros H.
  apply bind_Ok in H as (entities & Hent & H).
  apply bind_Ok in H as (types & Htypes & H).
  apply bind_Ok in H as (m & Hm & [= <-]).
  by exists entities, types.
Qed.

(** Every model in the output was serialized from the definition of a type
    that passed the whitelist test and is stored under that type's key. *)
Lemma convertToOrbit_lookup JSON_parse body options out key model :
  convertToOrbit JSON_parse body options = Ok out →
  models out !! key = Some model →
  ∃ entities types type definition,
    definitions_of JSON_parse body = Ok entities ∧
    Object_keys entities = Ok types ∧
    type ∈ types ∧
    not_in_whitelist options type = false ∧
    key = String_replace type ":" "--" ∧
    get_prop entities type = Ok definition ∧
    serialize definition options = Ok model.
Proof.
  intros (entities & types & Hent & Htypes & Hrun)%convertToOrbit_inv Hkey.
  destruct (collect_lookup_inv _ _ _ _ _ _ _ _ Hrun Hkey)
    as [Hempty|(type & Hin & Hwl & <- & Hmodel)];
    [by rewrite lookup_empty in Hempty|].
  unfold definition_model in Hmodel.
  apply bind_Ok in Hmodel as (definition & Hdef & Hser).
  by exists entities, types, type, definition.
Qed.

(** ** The scenarios of the specification *)

Example scenario_plain_article :
  convertToOrbit reject_text article_doc no_filters
  = Ok article_schema.
Proof. vm_compute. reflexivity. Qed.

Example scenario_whitelist :
  convertToOrbit reject_text site_doc only_articles
  = Ok article_schema.
Proof. vm_compute. reflexivity. Qed.

Example scenario_relationships :
  convertToOrbit reject_text site_doc no_filters
  = Ok site_schema.
Proof. vm_compute. reflexivity. Qed.

Example scenario_blacklist :
  convertToOrbit reject_text site_doc without_title_and_author
  = Ok filtered_schema.
Proof. vm_compute. reflexivity. Qed.

(** ** Whitelist *)

(** The claim fails in two ways.  A declared, whitelisted type named
    [__proto__] gets no key; and where two declared names are rewritten to
    the same key, the key of a whitelisted type is also the key of a type
    that is not whitelisted. *)
Lemma whitelisted_type_without_key_and_shared_key :
  convertToOrbit reject_text proto_doc proto_and_articles = Ok article_schema
  ∧ models article_schema !! (String_replace "__proto__" ":" "--") = None
  ∧ convertToOrbit reject_text colliding_doc only_articles
    = Ok colliding_schema
  ∧ ("node--article" ∉ ["node:article"])
  ∧ is_Some (models colliding_schema
             !! (String_replace "node--article" ":" "--")).
Proof.
  split_and!.
  - vm_compute. reflexivity.
  - vm_compute. reflexivity.
  - vm_compute. reflexivity.
  - intros Hin%list_elem_of_singleton. discriminate Hin.
  - exists bare_model. vm_compute. reflexivity.
Qed.

(** C1, as amended.  With a resource whitelist configured, every key of the
    output of [convertToOrbit] is the rewritten name of a type that is
    declared in the document and listed in the whitelist, and every such
    type whose rewritten name is not [__proto__] has its rewritten name as
    a key.  The list is searched for the type name as declared, not for the
    rewritten name. *)
Theorem whitelist_selects_keys JSON_parse body options w names out :
  whitelist options = Some w →
  wl_resources w = Some names →
  convertToOrbit JSON_parse body options = Ok out →
  ∃ entities types,
    definitions_of JSON_parse body = Ok entities ∧
    Object_keys entities = Ok types ∧
    (∀ type, type ∈ types → type ∈ names →
       String_replace type ":" "--" ≠ "__proto__" →
       String_replace type ":" "--" ∈ dom (models out)) ∧
    (∀ key, key ∈ dom (models out) →
       ∃ type, type ∈ types ∧ type ∈ names
               ∧ key = String_replace type ":" "--").
Proof.
  intros Hw Hn (entities & types & Hent & Htypes & Hrun)%convertToOrbit_inv.
  exists entities, types. split_and!; [done..| |].
  - intros type Hin Hlisted Hkey.
    apply (collect_dom _ _ _ _ _ _ Hrun). split; [done|].
    exists type. split_and!; [done| |done].
    by apply (not_in_whitelist_configured options w names).
  - intros key (_ & type & Hin & Hpass & <-)%(collect_dom _ _ _ _ _ _ Hrun).
    exists type. split_and!; [done| |done].
    by apply (not_in_whitelist_configured options w names) in Hpass.
Qed.

Lemma whitelist_selects_keys_witness :
  whitelist only_articles = Some {| wl_resources := Some ["node:article"] |}
  ∧ convertToOrbit reject_text site_doc only_articles
    = Ok article_schema
  ∧ ∃ entities types,
      definitions_of reject_text site_doc = Ok entities ∧
      Object_keys entities = Ok types ∧
      (∀ type, type ∈ types → type ∈ ["node:article"] →
         String_replace type ":" "--" ≠ "__proto__" →
         String_replace type ":" "--" ∈ dom (models article_schema)) ∧
      (∀ key, key ∈ dom (models article_schema) →
         ∃ type, type ∈ types ∧ type ∈ ["node:article"]
                 ∧ key = String_replace type ":" "--").
Proof.
  split; [reflexivity|]. split; [vm_compute; reflexivity|].
  apply (whitelist_selects_keys reject_text site_doc only_articles
           {| wl_resources := Some ["node:article"] |} ["node:article"]
           article_schema);
    [reflexivity | reflexivity | vm_compute; reflexivity].
Defined.

(** X3.  When the rewritten names of the whitelisted, declared types that
    are stored (all but one rewritten to [__proto__]) are pairwise distinct,
    as they are when no name holds a double hyphen or a second separator,
    the output has as many keys as there are such types. *)
Lemma whitelist_key_count
    JSON_parse body options w names out entities types :
  whitelist options = Some w →
  wl_resources w = Some names →
  convertToOrbit JSON_parse body options = Ok out →
  definitions_of JSON_parse body = Ok entities →
  Object_keys entities = Ok types →
  NoDup ((λ t, String_replace t ":" "--")
         <$> filter (λ t, t ∈ names ∧ String_replace t ":" "--" ≠ "__proto__")
               types) →
  size (models out)
  = length (filter (λ t, t ∈ names
                         ∧ String_replace t ":" "--" ≠ "__proto__") types).
Proof.
  intros Hw Hn (entities' & types' & Hent' & Htypes' & Hrun)%convertToOrbit_inv
    Hent Htypes Hnodup.
  assert (entities' = entities) as -> by congruence.
  assert (types' = types) as -> by congruence.
  assert (filter (λ t, not_in_whitelist options t = false
                       ∧ String_replace t ":" "--" ≠ "__proto__") types
          = filter (λ t, t ∈ names
                         ∧ String_replace t ":" "--" ≠ "__proto__") types)
    as Hfilter.
  { apply list_filter_iff. intros t.
    by rewrite (not_in_whitelist_configured options w names t Hw Hn). }
  rewrite <- Hfilter in Hnodup |- *.
  by apply (collect_size _ _ _ _ _ Hrun).
Qed.

(** Without that, two declared types share one key, and the later one in
    the document's order is the one that stays. *)
Example colliding_type_names :
  convertToOrbit reject_text colliding_doc no_filters = Ok article_schema.
Proof. vm_compute. reflexivity. Qed.

(** [convertToOrbit] returns as soon as the definitions can be read off the
    body and every declared type that passes the whitelist test has a
    definition that serializes. *)
Lemma convertToOrbit_succeeds JSON_parse body options entities types :
  definitions_of JSON_parse body = Ok entities →
  Object_keys entities = Ok types →
  (∀ type, type ∈ types → not_in_whitelist options type = false →
     ∃ model, definition_model options entities type = Ok model) →
  ∃ out, convertToOrbit JSON_parse body options = Ok out.
Proof.
  intros Hent Htypes Hall. unfold convertToOrbit, reduce.
  rewrite Hent. cbn [mbind result_bind]. rewrite Htypes.
  cbn [mbind result_bind].
  destruct (collect_succeeds (not_in_whitelist options)
              (λ t, String_replace t ":" "--")
              (definition_model options entities) types ∅ Hall)
    as [m Hm].
  exists {| models := m |}.
  rewrite (forEach_ext _ _ _ _ (convert_type_collect options entities)).
  by rewrite Hm.
Qed.




(** ** Namespace rewrite *)

Lemma String_replace_cons (c : ascii) (s : string) :
  String_replace (String c s) ":" "--"
  = if Ascii.eqb c ":" then "--" +:+ s
    else String c (String_replace s ":" "--").
Proof.
  change (String_replace (String c s) ":" "--")
    with (if String.prefix ":" (String c s)
          then "--" +:+ drop_chars (String.length ":") (String c s)
          else String c (String_replace s ":" "--")).
  change (String.prefix ":" (String c s))
    with (if ascii_dec ":" c then String.prefix "" s else false).
  destruct (ascii_dec ":" c) as [<-|Hne].
  - by assert (String.prefix "" s = true) as -> by (by destruct s).
  - by destruct (Ascii.eqb_spec c ":") as [->|_].
Qed.

Lemma rewrite_separators_none (s : string) :
  separators s = 0 → rewrite_separators s = s.
Proof.
  induction s as [|c s IH]; simpl; [done|].
  destruct (Ascii.eqb c ":"); [done|]. intros H. by rewrite IH.
Qed.

(** X2.  On a type name with at most one separator the program's key is the key
    the specification describes. *)
Lemma String_replace_single_separator (s : string) :
  (separators s ≤ 1)%nat → String_replace s ":" "--" = rewrite_separators s.
Proof.
  induction s as [|c s IH]; [done|].
  rewrite String_replace_cons. simpl.
  destruct (Ascii.eqb c ":").
  - intros H. rewrite rewrite_separators_none; [done|lia].
  - intros H. by rewrite IH.
Qed.

(** C2.  The key of [taxonomy:term:tags]: only its first separator is
    rewritten, so the key is not the type name with every separator
    rewritten. *)
Theorem key_rewrites_first_separator_only :
  convertToOrbit reject_text term_doc no_filters
  = Ok {| models := {[ "taxonomy--term:tags" := bare_model ]} |}
  ∧ rewrite_separators "taxonomy:term:tags" = "taxonomy--term--tags"
  ∧ String_replace "taxonomy:term:tags" ":" "--"
    ≠ rewrite_separators "taxonomy:term:tags".
Proof. split_and!; [vm_compute; reflexivity | reflexivity | discriminate]. Qed.

(** ** Relationships *)

Lemma relationship_model_inv relProps prop rm :
  relationship_model relProps prop = Ok rm →
  ∃ data dataType,
    get_path relProps [prop; "properties"; "data"] = Ok data ∧
    get_prop data "type" = Ok dataType ∧
    if strict_eq_str dataType "array" then
      ∃ enum model,
        get_path data ["items"; "properties"; "type"; "enum"] = Ok enum ∧
        get_prop enum "0" = Ok model ∧
        rm = {| rel_type := hasMany; rel_model := model |}
    else
      ∃ enum model,
        get_path data ["properties"; "type"; "enum"] = Ok enum ∧
        get_prop enum "0" = Ok model ∧
        rm = {| rel_type := hasOne; rel_model := model |}.
Proof.
  unfold relationship_model. intros H.
  apply bind_Ok in H as (propSchema & Hps & H).
  apply bind_Ok in H as (dataType & Hty & H).
  change ["properties"; "data"; "type"]
    with (["properties"; "data"] ++ ["type"])%list in Hty.
  apply get_path_snoc_Ok in Hty as (data & Hdata & Hty).
  exists data, dataType. split_and!; [|done|].
  { change (get_path relProps [prop; "properties"; "data"])
      with (get_prop relProps prop ≫= λ w, get_path w ["properties"; "data"]).
    rewrite Hps. exact Hdata. }
  destruct (strict_eq_str dataType "array").
  - apply bind_Ok in H as (model & Hm & [= <-]).
    change ["properties"; "data"; "items"; "properties"; "type"; "enum"; "0"]
      with (["properties"; "data"]
            ++ (["items"; "properties"; "type"; "enum"] ++ ["0"]))%list in Hm.
    rewrite get_path_app, Hdata in Hm. cbn -[get_path app] in Hm.
    apply get_path_snoc_Ok in Hm as (enum & Henum & Hm).
    by exists enum, model.
  - apply bind_Ok in H as (model & Hm & [= <-]).
    change ["properties"; "data"; "properties"; "type"; "enum"; "0"]
      with (["properties"; "data"]
            ++ (["properties"; "type"; "enum"] ++ ["0"]))%list in Hm.
    rewrite get_path_app, Hdata in Hm. cbn -[get_path app] in Hm.
    apply get_path_snoc_Ok in Hm as (enum & Henum & Hm).
    by exists enum, model.
Qed.

(** The relationships half of a successful [serialize], seen from the
    relationship map of the definition. *)
Lemma serialize_relationships_built schema options out relProps names :
  serialize schema options = Ok out →
  get_path schema ["properties"; "relationships"; "properties"] = Ok relProps →
  Object_keys relProps = Ok names →
  ∃ rels,
    relationships out = Some rels ∧
    forEach (collect (blacklisted bl_relationships options) id
               (relationship_model relProps)) names ∅ = Ok rels.
Proof.
  intros (attrs & member & _ & Hmember & _ & Hbuilt)%serialize_inv Hpath Hnames.
  change ["properties"; "relationships"; "properties"]
    with (["properties"; "relationships"] ++ ["properties"])%list in Hpath.
  apply get_path_snoc_Ok in Hpath as (member' & Hmember' & Hprops).
  assert (member' = member) as -> by congruence.
  unfold submap_built in Hbuilt.
  rewrite (is_object_truthy member) in Hbuilt
    by (by eapply properties_holder_is_object).
  destruct Hbuilt as (props & names' & m & Hprops' & Hnames' & Hrun & Hout).
  assert (props = relProps) as -> by congruence.
  assert (names' = names) as -> by congruence.
  by exists m.
Qed.

(** The claim fails for a relationship named [__proto__]: it is not
    blacklisted, and nothing is emitted for it. *)
Lemma relationship_named_proto_is_not_emitted :
  serialize proto_members_def no_filters = Ok proto_members_model
  ∧ Object_keys (VObj [("__proto__", to_one ["user"])]) = Ok ["__proto__"]
  ∧ ¬ in_blacklist bl_relationships no_filters "__proto__"
  ∧ relationships proto_members_model = Some ∅.
Proof.
  split_and!.
  - vm_compute. reflexivity.
  - reflexivity.
  - apply not_blacklisted_spec. reflexivity.
  - reflexivity.
Qed.

(** C3, as amended.  Every relationship name of the definition that is not
    blacklisted and is not [__proto__] is emitted by [serialize]: as
    [hasMany] with the first declared value of the items' target-type
    enumeration when the type of its data reference is [array], and as
    [hasOne] with the first declared value of the target-type enumeration of
    the data reference otherwise. *)
Theorem serialize_relationship_cardinality
    schema options out relProps names prop :
  serialize schema options = Ok out →
  get_path schema ["properties"; "relationships"; "properties"] = Ok relProps →
  Object_keys relProps = Ok names →
  prop ∈ names →
  ¬ in_blacklist bl_relationships options prop →
  prop ≠ "__proto__" →
  ∃ rels data dataType,
    relationships out = Some rels ∧
    get_path relProps [prop; "properties"; "data"] = Ok data ∧
    get_prop data "type" = Ok dataType ∧
    if strict_eq_str dataType "array" then
      ∃ enum model,
        get_path data ["items"; "properties"; "type"; "enum"] = Ok enum ∧
        get_prop enum "0" = Ok model ∧
        rels !! prop = Some {| rel_type := hasMany; rel_model := model |}
    else
      ∃ enum model,
        get_path data ["properties"; "type"; "enum"] = Ok enum ∧
        get_prop enum "0" = Ok model ∧
        rels !! prop = Some {| rel_type := hasOne; rel_model := model |}.
Proof.
  intros Hser Hpath Hnames Hin Hallowed%not_blacklisted_spec Hproto.
  destruct (serialize_relationships_built _ _ _ _ _ Hser Hpath Hnames)
    as (rels & Hrels & Hrun).
  destruct (collect_lookup_some _ _ _ _ _ _ _ Hrun Hin Hallowed Hproto)
    as (prop' & rm & _ & _ & Hsame & Hrm & Hlookup).
  simpl in Hsame, Hlookup. subst prop'.
  apply relationship_model_inv in Hrm as (data & dataType & Hdata & Hty & Hrm).
  exists rels, data, dataType. split_and!; [done..|].
  destruct (strict_eq_str dataType "array");
    destruct Hrm as (enum & model & Henum & Hfirst & ->);
    by exists enum, model.
Qed.

Lemma serialize_relationship_cardinality_witness :
  serialize page_def no_filters = Ok page_model
  ∧ ∃ rels,
      relationships page_model = Some rels ∧
      rels !! "comments"
      = Some {| rel_type := hasMany; rel_model := VStr "comment" |}.
Proof.
  split; [vm_compute; reflexivity|].
  destruct (serialize_relationship_cardinality page_def no_filters page_model
              page_relationships ["author"; "comments"] "comments")
    as (rels & data & dataType & Hrels & Hdata & Hty & H).
  - vm_compute. reflexivity.
  - reflexivity.
  - reflexivity.
  - apply list_elem_of_further, list_elem_of_here.
  - apply not_blacklisted_spec. reflexivity.
  - discriminate.
  - exists rels. split; [exact Hrels|].
    vm_compute in Hdata. injection Hdata as <-.
    vm_compute in Hty. injection Hty as <-.
    destruct H as (enum & model & Henum & Hfirst & Hlookup).
    vm_compute in Henum. injection Henum as <-.
    vm_compute in Hfirst. injection Hfirst as <-.
    exact Hlookup.
Defined.

(** ** Sub-maps *)

Lemma submap_built_Some {V} member skip
    (compute : value → string → result V) out m :
  submap_built member skip compute out → out = Some m →
  ∃ props names,
    get_prop member "properties" = Ok props ∧
    Object_keys props = Ok names ∧
    forEach (collect skip id (compute props)) names ∅ = Ok m.
Proof.
  unfold submap_built. intros Hbuilt ->.
  destruct (truthy member); [|done].
  destruct Hbuilt as (props & names & m' & ? & ? & ? & [= <-]).
  by exists props, names.
Qed.





(** ** Blacklists *)




(** C5.  In every model of the output that has a relationships sub-map, no
    blacklisted relationship name is a key of the sub-map, whatever the
    resource type. *)
Theorem relationship_blacklist
    JSON_parse body options out key model rels prop :
  convertToOrbit JSON_parse body options = Ok out →
  models out !! key = Some model →
  relationships model = Some rels →
  in_blacklist bl_relationships options prop →
  rels !! prop = None.
Proof.
  intros Hconv Hkey Hrels Hlisted%blacklisted_spec.
  destruct (convertToOrbit_lookup _ _ _ _ _ _ Hconv Hkey)
    as (_ & _ & _ & definition & _ & _ & _ & _ & _ & _ & Hser).
  apply serialize_inv in Hser as (_ & member & _ & _ & _ & Hbuilt).
  destruct (submap_built_Some _ _ _ _ _ Hbuilt Hrels)
    as (relProps & names & _ & _ & Hrun).
  destruct (rels !! prop) as [rm|] eqn:Hprop; [|done].
  destruct (collect_lookup_inv _ _ _ _ _ _ _ _ Hrun Hprop)
    as [Hempty|(x & _ & Hs & Hx & _)]; [by rewrite lookup_empty in Hempty|].
  simpl in Hx. subst x. congruence.
Qed.

Lemma relationship_blacklist_witness :
  convertToOrbit reject_text site_doc without_title_and_author
  = Ok filtered_schema
  ∧ models filtered_schema !! "node--page" = Some filtered_page_model
  ∧ in_blacklist bl_relationships without_title_and_author "author"
  ∧ ({[ "comments" := {| rel_type := hasMany; rel_model := VStr "comment" |} ]}
       : gmap string RelationshipModel) !! "author" = None.
Proof.
  split; [vm_compute; reflexivity|]. split; [vm_compute; reflexivity|].
  split; [apply blacklisted_spec; reflexivity|].
  apply (relationship_blacklist reject_text site_doc
           without_title_and_author filtered_schema "node--page"
           filtered_page_model);
    [vm_compute; reflexivity | vm_compute; reflexivity | reflexivity |].
  apply blacklisted_spec. reflexivity.
Defined.



(** ** Exceptions of the transformer *)

Lemma own_props_error v e : own_props v = Throw e → e = TypeError.
Proof. destruct v; simpl; congruence. Qed.

Lemma get_prop_error v k e : get_prop v k = Throw e → e = TypeError.
Proof.
  unfold get_prop. intros [H|(ps & _ & H)]%bind_Throw; [|done].
  by eapply own_props_error.
Qed.

Lemma Object_keys_error v e : Object_keys v = Throw e → e = TypeError.
Proof.
  unfold Object_keys. intros [H|(ps & _ & H)]%bind_Throw; [|done].
  by eapply own_props_error.
Qed.

Lemma get_path_error v ks e : get_path v ks = Throw e → e = TypeError.
Proof.
  revert v. induction ks as [|k ks IH]; intros v; simpl; [done|].
  intros [H|(w & _ & H)]%bind_Throw; [by eapply get_prop_error | by eapply IH].
Qed.

Lemma collect_error {A V} (skip : A → bool) (key : A → string)
    (compute : A → result V) xs acc e :
  (∀ x e', compute x = Throw e' → e' = TypeError) →
  forEach (collect skip key compute) xs acc = Throw e → e = TypeError.
Proof.
  intros Hcompute. revert acc.
  induction xs as [|x xs IH]; intros acc; simpl; [done|].
  intros [H|(acc' & _ & H)]%bind_Throw; [|by eapply IH].
  unfold collect in H. destruct (skip x); [done|].
  apply bind_Throw in H as [H|(v & _ & H)]; [by eapply Hcompute | done].
Qed.

Lemma attribute_model_error attrProps prop e :
  attribute_model attrProps prop = Throw e → e = TypeError.
Proof.
  unfold attribute_model. intros [H|(ps & _ & H)]%bind_Throw;
    [by eapply get_prop_error|].
  apply bind_Throw in H as [H|(ty & _ & H)]; [by eapply get_prop_error|done].
Qed.

Lemma relationship_model_error relProps prop e :
  relationship_model relProps prop = Throw e → e = TypeError.
Proof.
  unfold relationship_model. intros [H|(ps & _ & H)]%bind_Throw;
    [by eapply get_prop_error|].
  apply bind_Throw in H as [H|(ty & _ & H)]; [by eapply get_path_error|].
  destruct (strict_eq_str ty "array");
    apply bind_Throw in H as [H|(m & _ & H)];
    solve [exact (get_path_error _ _ _ H) | done].
Qed.

Lemma submap_error {V} (member : value)
    (callback : value → gmap string V → string → result (gmap string V))
    skip compute e :
  (∀ props acc x, callback props acc x = collect skip id (compute props) acc x) →
  (∀ props x e', compute props x = Throw e' → e' = TypeError) →
  (if truthy member then
     props ← get_prop member "properties";
     names ← Object_keys props;
     out ← forEach (callback props) names ∅;
     Ok (Some out)
   else Ok None) = Throw e →
  e = TypeError.
Proof.
  intros Hcallback Hcompute H. destruct (truthy member); [|done].
  apply bind_Throw in H as [H|(props & _ & H)]; [by eapply get_prop_error|].
  apply bind_Throw in H as [H|(names & _ & H)]; [by eapply Object_keys_error|].
  apply bind_Throw in H as [H|(out & _ & H)]; [|done].
  rewrite (forEach_ext _ _ _ _ (Hcallback props)) in H.
  eapply collect_error; [|done]. apply Hcompute.
Qed.

Lemma serialize_error schema options e :
  serialize schema options = Throw e → e = TypeError.
Proof.
  unfold serialize. intros H.
  apply bind_Throw in H as [H|(attrs & _ & H)]; [by eapply get_path_error|].
  apply bind_Throw in H as [H|(outAttrs & _ & H)].
  { eapply (submap_error _ (serialize_attribute options)); [| |exact H].
    - intros. apply serialize_attribute_collect.
    - apply attribute_model_error. }
  apply bind_Throw in H as [H|(rels & _ & H)]; [by eapply get_path_error|].
  apply bind_Throw in H as [H|(outRels & _ & H)]; [|done].
  eapply (submap_error _ (serialize_relationship options)); [| |exact H].
  - intros. apply serialize_relationship_collect.
  - apply relationship_model_error.
Qed.

Lemma definition_model_error options entities type e :
  definition_model options entities type = Throw e → e = TypeError.
Proof.
  unfold definition_model. intros [H|(d & _ & H)]%bind_Throw;
    [by eapply get_prop_error | by eapply serialize_error].
Qed.


(** ** Malformed relationship descriptors *)









(** ** The transformer on the heap *)

(** ** Heaps *)

Lemma keeps_refl h : keeps h h.
Proof. by intros l o. Qed.

Lemma keeps_trans h1 h2 h3 : keeps h1 h2 → keeps h2 h3 → keeps h1 h3.
Proof. intros H12 H23 l o Hl. by apply H23, H12. Qed.

Lemma keeps_length h h' : keeps h h' → (length h ≤ length h')%nat.
Proof.
  intros Hk. destruct (decide (length h ≤ length h')%nat) as [|Hlt]; [done|].
  assert (is_Some (h !! length h')) as [o Ho] by (apply lookup_lt_is_Some; lia).
  apply Hk, lookup_lt_Some in Ho. lia.
Qed.

Lemma keeps_app h F : keeps h (h ++ F)%list.
Proof. intros l o Hl. by apply lookup_app_l_Some. Qed.

Lemma unchanged_keeps P h h' : keeps h h' → unchanged P h h'.
Proof. intros Hk l o _. apply Hk. Qed.

Lemma unchanged_trans P h1 h2 h3 :
  unchanged P h1 h2 → unchanged P h2 h3 → unchanged P h1 h3.
Proof. intros H12 H23 l o HP Hl. by apply H23, H12. Qed.

Lemma unchanged_weaken (P Q : nat → Prop) h h' :
  (∀ l, Q l → P l) → unchanged P h h' → unchanged Q h h'.
Proof. intros HQP Hu l o HQ. by apply Hu, HQP. Qed.

(** An assignment changes the object it is made to and no other. *)
Lemma unchanged_insert (a : nat) (o : Heap.hobject) h :
  unchanged (λ l, l ≠ a) h (<[a := o]> h).
Proof. intros l o' Hl Ho. by rewrite list_lookup_insert_ne. Qed.

(** What was there before a run is untouched by changes to what the run
    has allocated. *)
Lemma unchanged_fresh_keeps (a : nat) h0 h h' :
  (length h0 ≤ a)%nat → keeps h0 h → unchanged (λ l, l ≠ a) h h' →
  keeps h0 h'.
Proof.
  intros Ha Hk Hu l o Hl. apply Hu; [|by apply Hk].
  apply lookup_lt_Some in Hl. lia.
Qed.

(** ** Reading the document off the heap *)

Lemma all2_imap {A B} (R : A → B → Prop) (xs : list A) (ys : list B)
    (f : nat → string) :
  all2 R xs ys →
  all2 (λ (tp : string * A) (p : string * B), tp.1 = p.1 ∧ R tp.2 p.2)
    (imap (λ i x, (f i, x)) xs) (imap (λ i y, (f i, y)) ys).
Proof.
  revert ys f. induction xs as [|x xs IH]; intros [|y ys] f; simpl; try done.
  intros [Hxy Hrest]. split; [done|]. apply (IH ys (f ∘ S) Hrest).
Qed.

Lemma all2_chars h (s : string) :
  all2 (represents h) (chars s) (Heap.chars s).
Proof. induction s as [|c s IH]; simpl; [done|]. by split. Qed.

Lemma all2_lookup h k tps ps :
  all2 (λ (tp : string * value) (p : string * Heap.hvalue),
          tp.1 = p.1 ∧ represents h tp.2 p.2) tps ps →
  opt_rel (represents h) (assoc k tps) (Heap.lookup_prop k ps).
Proof.
  revert ps. induction tps as [|[k1 t] tps IH]; intros [|[k2 v] ps]; simpl;
    try done.
  intros [[<- Hrep] Hrest]. destruct (String.eqb k1 k); [done|]. by apply IH.
Qed.

Lemma all2_keys h tps ps :
  all2 (λ (tp : string * value) (p : string * Heap.hvalue),
          tp.1 = p.1 ∧ represents h tp.2 p.2) tps ps →
  tps.*1 = ps.*1.
Proof.
  revert ps. induction tps as [|[k1 t] tps IH]; intros [|[k2 v] ps]; simpl;
    try done.
  intros [[<- _] Hrest]. f_equal. by apply IH.
Qed.

Lemma own_props_sim h H t v :
  represents h t v → keeps h H →
  res_rel (λ ps tps,
             all2 (λ (tp : string * value) (p : string * Heap.hvalue),
                     tp.1 = p.1 ∧ represents h tp.2 p.2) tps ps)
    (Heap.own_props H v) (own_props t).
Proof.
  intros Hrep Hk. destruct t as [| |b|n|s|ts|tps]; simpl in Hrep.
  - by subst.
  - by subst.
  - by subst.
  - by subst.
  - subst. simpl. apply all2_imap, all2_chars.
  - destruct Hrep as (l & vs & -> & Hl & Hall). simpl.
    rewrite (Hk _ _ Hl). simpl. by apply all2_imap.
  - destruct Hrep as (l & ps & -> & Hl & Hall). simpl.
    by rewrite (Hk _ _ Hl).
Qed.

Lemma get_prop_sim h H t v k :
  represents h t v → keeps h H →
  res_rel (λ v' t', represents h t' v') (Heap.get_prop H v k) (get_prop t k).
Proof.
  intros Hrep Hk. pose proof (own_props_sim h H t v Hrep Hk) as Hprops.
  unfold Heap.get_prop, get_prop.
  destruct (Heap.own_props H v) as [ps|e], (own_props t) as [tps|e'];
    simpl in *; try done.
  pose proof (all2_lookup h k tps ps Hprops) as Hlook.
  by destruct (assoc k tps), (Heap.lookup_prop k ps).
Qed.

Lemma get_path_sim h H t v ks :
  represents h t v → keeps h H →
  res_rel (λ v' t', represents h t' v') (Heap.get_path H v ks) (get_path t ks).
Proof.
  revert t v. induction ks as [|k ks IH]; intros t v Hrep Hk; simpl; [done|].
  pose proof (get_prop_sim h H t v k Hrep Hk) as Hget.
  destruct (Heap.get_prop H v k) as [v'|e], (get_prop t k) as [t'|e'];
    simpl in *; try done.
  by apply IH.
Qed.

Lemma Object_keys_sim h H t v :
  represents h t v → keeps h H →
  Heap.Object_keys H v = Object_keys t.
Proof.
  intros Hrep Hk. pose proof (own_props_sim h H t v Hrep Hk) as Hprops.
  unfold Heap.Object_keys, Object_keys.
  destruct (Heap.own_props H v) as [ps|e], (own_props t) as [tps|e'];
    simpl in *; try done; [|by subst].
  by rewrite (all2_keys h tps ps Hprops).
Qed.

Lemma truthy_sim h t v : represents h t v → Heap.truthy v = truthy t.
Proof.
  destruct t; simpl; intros Hrep; try (by subst).
  - by destruct Hrep as (l & vs & -> & _).
  - by destruct Hrep as (l & props & -> & _).
Qed.

Lemma strict_eq_str_sim h t v lit :
  represents h t v → Heap.strict_eq_str v lit = strict_eq_str t lit.
Proof.
  destruct t; simpl; intros Hrep; try (by subst).
  - by destruct Hrep as (l & vs & -> & _).
  - by destruct Hrep as (l & props & -> & _).
Qed.

(** ** Running on the heap *)

Lemma bind_read {A B} (f : list Heap.hobject → result A) (k : A → Heap.St B)
    (H : list Heap.hobject) :
  (Heap.read f ≫= k) H
  = match f H with
    | Ok a => k a H
    | Throw e => (Throw e, H)
    end.
Proof.
  unfold mbind, Heap.St_bind, Heap.read. by destruct (f H).
Qed.

Lemma bind_new {B} (props : list (string * Heap.hvalue))
    (k : Heap.hvalue → Heap.St B) (H : list Heap.hobject) :
  (Heap.new_object props ≫= k) H
  = k (Heap.HRef (length H)) (H ++ [Heap.HObj props])%list.
Proof. reflexivity. Qed.

Lemma bind_run {A B} (c : Heap.St A) (k : A → Heap.St B)
    (H : list Heap.hobject) :
  (c ≫= k) H
  = match c H with
    | (Ok a, H') => k a H'
    | (Throw e, H') => (Throw e, H')
    end.
Proof. reflexivity. Qed.

Lemma set_prop_object (a : nat) (k : string) (v : Heap.hvalue)
    (props : list (string * Heap.hvalue)) (H : list Heap.hobject) :
  H !! a = Some (Heap.HObj props) →
  Heap.set_prop (Heap.HRef a) k v H
  = (Ok (),
     <[a := Heap.HObj (if String.eqb k "__proto__" then props
                       else Heap.assign k v props)]> H).
Proof. intros Ha. unfold Heap.set_prop. by rewrite Ha. Qed.

(** ** Property lists as maps *)

Lemma lookup_prop_assign k j v ps :
  Heap.lookup_prop j (Heap.assign k v ps)
  = if String.eqb k j then Some v else Heap.lookup_prop j ps.
Proof.
  induction ps as [|[k' v'] ps IH]; simpl.
  - by destruct (String.eqb k j).
  - destruct (String.eqb_spec k' k) as [->|Hk'k]; simpl.
    + by destruct (String.eqb k j).
    + destruct (String.eqb_spec k' j) as [->|Hk'j].
      * destruct (String.eqb_spec k j) as [->|]; [done|done].
      * apply IH.
Qed.

Lemma is_map_empty {X} (R : X → Heap.hvalue → Prop) : is_map R ∅ [].
Proof. intros k. by rewrite lookup_empty. Qed.

Lemma is_map_store {X} (R : X → Heap.hvalue → Prop) m ps k x v :
  is_map R m ps → R x v →
  is_map R (store k x m)
    (if String.eqb k "__proto__" then ps else Heap.assign k v ps).
Proof.
  intros Hmap Hxv j. unfold store.
  destruct (String.eqb k "__proto__"); [apply Hmap|].
  rewrite lookup_prop_assign.
  destruct (String.eqb_spec k j) as [->|Hkj].
  - by rewrite lookup_insert_eq.
  - rewrite lookup_insert_ne by done. apply Hmap.
Qed.

Lemma is_map_impl {X} (R R' : X → Heap.hvalue → Prop) m ps :
  (∀ x v, R x v → R' x v) → is_map R m ps → is_map R' m ps.
Proof.
  intros HRR' Hmap k. specialize (Hmap k). unfold opt_rel in *.
  destruct (m !! k), (Heap.lookup_prop k ps); auto.
Qed.

Lemma opt_rel_impl {A B} (R R' : A → B → Prop) a b :
  (∀ x y, R x y → R' x y) → opt_rel R a b → opt_rel R' a b.
Proof. intros HRR'. destruct a, b; simpl; auto. Qed.

(** ** What the output is made of, under changes of the heap *)

Lemma is_attribute_frame lo lo' h H H' x v :
  is_attribute lo h H x v → (lo' ≤ lo)%nat →
  unchanged (λ l, (lo ≤ l)%nat) H H' →
  is_attribute lo' h H' x v.
Proof.
  intros (l & ty & -> & Hlo & Hl & Hty) Hle Hu.
  exists l, ty. split_and!; [done | lia | by apply Hu | done].
Qed.

Lemma is_relationship_frame lo lo' h H H' x v :
  is_relationship lo h H x v → (lo' ≤ lo)%nat →
  unchanged (λ l, (lo ≤ l)%nat) H H' →
  is_relationship lo' h H' x v.
Proof.
  intros (l & model & -> & Hlo & Hl & Hmodel) Hle Hu.
  exists l, model. split_and!; [done | lia | by apply Hu | done].
Qed.

Lemma is_submap_frame {X}
    (R : nat → list Heap.hobject → list Heap.hobject → X → Heap.hvalue → Prop)
    lo lo' h H H' m v :
  (∀ x w, R lo h H x w → R lo' h H' x w) →
  is_submap R lo h H m v → (lo' ≤ lo)%nat →
  unchanged (λ l, (lo ≤ l)%nat) H H' →
  is_submap R lo' h H' m v.
Proof.
  intros HR (l & ps & -> & Hlo & Hl & Hmap) Hle Hu.
  exists l, ps. split_and!; [done | lia | by apply Hu |].
  by eapply is_map_impl.
Qed.

Lemma is_model_frame lo lo' h H H' M v :
  is_model lo h H M v → (lo' ≤ lo)%nat →
  unchanged (λ l, (lo ≤ l)%nat) H H' →
  is_model lo' h H' M v.
Proof.
  intros (l & ps & -> & Hlo & Hl & Hattrs & Hrels & Hother) Hle Hu.
  exists l, ps. split_and!; [done | lia | by apply Hu | | | done].
  - eapply opt_rel_impl; [|exact Hattrs]. intros m w Hm.
    eapply is_submap_frame; [|exact Hm|done|done].
    intros x u Hx. by eapply is_attribute_frame.
  - eapply opt_rel_impl; [|exact Hrels]. intros m w Hm.
    eapply is_submap_frame; [|exact Hm|done|done].
    intros x u Hx. by eapply is_relationship_frame.
Qed.

(** ** Loops *)

Lemma forEach_sim {A X} (f : A → Heap.St unit) (g : X → A → result X)
    (Inv : list Heap.hobject → X → Prop) (E : list Heap.hobject → Prop)
    xs H acc :
  (∀ H acc x, Inv H acc →
     sim (f x) H (g acc x) (λ _ acc' H', Inv H' acc') E) →
  Inv H acc →
  sim (Heap.forEach f xs) H (forEach g xs acc) (λ _ acc' H', Inv H' acc') E.
Proof.
  intros Hstep. revert H acc.
  induction xs as [|x xs IH]; intros H acc HInv; [done|].
  specialize (Hstep H acc x HInv). unfold sim in *.
  change (Heap.forEach f (x :: xs) H)
    with (match f x H with
          | (Ok _, H') => Heap.forEach f xs H'
          | (Throw e, H') => (Throw e, H')
          end).
  change (forEach g (x :: xs) acc) with (g acc x ≫= forEach g xs).
  destruct (f x H) as [[[]|e] H'], (g acc x) as [acc'|e']; try done.
  cbn [mbind result_bind]. by apply IH.
Qed.

(** The end of both callbacks of [serialize]: a descriptor is built and
    assigned to a sub-map at [a]. *)
Lemma store_descriptor {X}
    (R : nat → list Heap.hobject → list Heap.hobject → X → Heap.hvalue → Prop)
    h Hs a H acc prop descriptor x :
  (∀ lo H H' x v, R lo h H x v → unchanged (λ l, (lo ≤ l)%nat) H H'
                  → R lo h H' x v) →
  (a < length H)%nat →
  unchanged (λ l, l ≠ a) Hs H →
  (∃ ps, H !! a = Some (Heap.HObj ps) ∧ is_map (R (S a) h H) acc ps) →
  (∀ H2, H2 !! length H = Some (Heap.HObj descriptor) →
         R (S a) h H2 x (Heap.HRef (length H))) →
  ∃ H2,
    (d ← Heap.new_object descriptor; Heap.set_prop (Heap.HRef a) prop d) H
    = (Ok (), H2)
    ∧ (a < length H2)%nat
    ∧ unchanged (λ l, l ≠ a) Hs H2
    ∧ ∃ ps', H2 !! a = Some (Heap.HObj ps')
             ∧ is_map (R (S a) h H2) (store prop x acc) ps'.
Proof.
  intros Hframe Ha Hu (ps & Hps & Hmap) Hnew.
  rewrite bind_new.
  rewrite (set_prop_object a prop _ ps)
    by (by apply lookup_app_l_Some).
  eexists. split; [reflexivity|].
  set (H1 := (H ++ [Heap.HObj descriptor])%list).
  set (ps' := if String.eqb prop "__proto__" then ps
              else Heap.assign prop (Heap.HRef (length H)) ps).
  assert (unchanged (λ l, l ≠ a) H (<[a := Heap.HObj ps']> H1)) as HuH.
  { intros l o Hl Ho. rewrite list_lookup_insert_ne by done.
    by apply lookup_app_l_Some. }
  split_and!.
  - rewrite length_insert. unfold H1. rewrite length_app. lia.
  - by eapply unchanged_trans.
  - exists ps'. split.
    + apply list_lookup_insert_eq. unfold H1. rewrite length_app. lia.
    + apply is_map_store.
      * eapply is_map_impl; [|exact Hmap]. intros y w Hy.
        apply (Hframe _ H); [done|].
        eapply unchanged_weaken; [|exact HuH]. simpl. lia.
      * apply Hnew. rewrite list_lookup_insert_ne by lia.
        unfold H1. by rewrite lookup_app_r, Nat.sub_diag by lia.
Qed.

Lemma get_path_snoc_sim h H t v ks k u :
  represents h t v → keeps h H →
  get_path t ks = Ok u →
  res_rel (λ v' t', represents h t' v')
    (Heap.get_path H v (ks ++ [k])) (get_prop u k).
Proof.
  intros Hrep Hk Hu.
  pose proof (get_path_sim h H t v (ks ++ [k]) Hrep Hk) as Hsim.
  rewrite get_path_app, Hu in Hsim. cbn [mbind result_bind get_path] in Hsim.
  by destruct (get_prop u k).
Qed.

(** Reading a property of an object the program has built. *)
Lemma get_prop_built H o po k v :
  H !! o = Some (Heap.HObj po) → Heap.lookup_prop k po = Some v →
  Heap.get_prop H (Heap.HRef o) k = Ok v.
Proof.
  intros Ho Hk. unfold Heap.get_prop. simpl. rewrite Ho. simpl.
  by rewrite Hk.
Qed.

(** ** The callbacks of [serialize] *)

Lemma serialize_attribute_sim
    h Hs options tschema schema attrProps o a po H acc prop :
  represents h tschema schema →
  get_path tschema ["properties"; "attributes"; "properties"] = Ok attrProps →
  keeps h Hs → (length h ≤ a)%nat → o ≠ a →
  Hs !! o = Some (Heap.HObj po) →
  Heap.lookup_prop "attributes" po = Some (Heap.HRef a) →
  (a < length H)%nat ∧ unchanged (λ l, l ≠ a) Hs H
  ∧ (∃ ps, H !! a = Some (Heap.HObj ps)
           ∧ is_map (is_attribute (S a) h H) acc ps) →
  sim (Heap.serialize_attribute options schema (Heap.HRef o) prop) H
    (serialize_attribute options attrProps acc prop)
    (λ _ acc' H',
       (a < length H')%nat ∧ unchanged (λ l, l ≠ a) Hs H'
       ∧ ∃ ps, H' !! a = Some (Heap.HObj ps)
               ∧ is_map (is_attribute (S a) h H') acc' ps)
    (unchanged (λ l, l ≠ a) Hs).
Proof.
  intros Hrep Hpath Hk Ha Hoa Ho Hattrs (Hlt & Hu & Hacc).
  assert (keeps h H) as HkH by (by eapply unchanged_fresh_keeps).
  unfold Heap.serialize_attribute, serialize_attribute, sim.
  destruct (blacklisted bl_attributes options prop); [done|].
  rewrite bind_read.
  pose proof (get_path_snoc_sim h H tschema schema
                ["properties"; "attributes"; "properties"] prop attrProps
                Hrep HkH Hpath) as Hps.
  cbn [app] in Hps.
  destruct (Heap.get_path H schema _) as [propSchema|e],
           (get_prop attrProps prop) as [tps|e']; simpl in Hps; try done.
  cbn [mbind result_bind]. rewrite bind_read.
  rewrite (get_prop_built H o po "attributes" (Heap.HRef a))
    by (done || by apply Hu).
  rewrite bind_read.
  pose proof (get_prop_sim h H tps propSchema "type" Hps HkH) as Hty.
  destruct (Heap.get_prop H propSchema "type") as [ty|e],
           (get_prop tps "type") as [tty|e']; simpl in Hty; try done.
  cbn [mbind result_bind].
  destruct (store_descriptor (@is_attribute) h Hs a H acc prop
              [("type", ty)] {| attr_type := tty |})
    as (H2 & -> & HQ); try done.
  - intros lo H1 H1' x v Hx Hun. by eapply is_attribute_frame.
  - intros H2 HH2. exists (length H), ty. split_and!; [done|lia|done|done].
Qed.

Lemma serialize_relationship_sim
    h Hs options tschema schema relProps o a po H acc prop :
  represents h tschema schema →
  get_path tschema ["properties"; "relationships"; "properties"] = Ok relProps →
  keeps h Hs → (length h ≤ a)%nat → o ≠ a →
  Hs !! o = Some (Heap.HObj po) →
  Heap.lookup_prop "relationships" po = Some (Heap.HRef a) →
  (a < length H)%nat ∧ unchanged (λ l, l ≠ a) Hs H
  ∧ (∃ ps, H !! a = Some (Heap.HObj ps)
           ∧ is_map (is_relationship (S a) h H) acc ps) →
  sim (Heap.serialize_relationship options schema (Heap.HRef o) prop) H
    (serialize_relationship options relProps acc prop)
    (λ _ acc' H',
       (a < length H')%nat ∧ unchanged (λ l, l ≠ a) Hs H'
       ∧ ∃ ps, H' !! a = Some (Heap.HObj ps)
               ∧ is_map (is_relationship (S a) h H') acc' ps)
    (unchanged (λ l, l ≠ a) Hs).
Proof.
  intros Hrep Hpath Hk Ha Hoa Ho Hrels (Hlt & Hu & Hacc).
  assert (keeps h H) as HkH by (by eapply unchanged_fresh_keeps).
  unfold Heap.serialize_relationship, serialize_relationship, sim.
  destruct (blacklisted bl_relationships options prop); [done|].
  rewrite bind_read.
  pose proof (get_path_snoc_sim h H tschema schema
                ["properties"; "relationships"; "properties"] prop relProps
                Hrep HkH Hpath) as Hps.
  cbn [app] in Hps.
  destruct (Heap.get_path H schema _) as [propSchema|e],
           (get_prop relProps prop) as [tps|e']; simpl in Hps; try done.
  cbn [mbind result_bind]. rewrite bind_read.
  pose proof (get_path_sim h H tps propSchema ["properties"; "data"; "type"]
                Hps HkH) as Hdt.
  destruct (Heap.get_path H propSchema ["properties"; "data"; "type"])
    as [dataType|e],
    (get_path tps ["properties"; "data"; "type"]) as [tdt|e'];
    simpl in Hdt; try done.
  cbn [mbind result_bind].
  rewrite (strict_eq_str_sim h tdt dataType "array" Hdt).
  destruct (strict_eq_str tdt "array").
  - rewrite bind_read.
    rewrite (get_prop_built H o po "relationships" (Heap.HRef a))
      by (done || by apply Hu).
    rewrite bind_read.
    pose proof (get_path_sim h H tps propSchema
                  ["properties"; "data"; "items"; "properties"; "type";
                   "enum"; "0"] Hps HkH) as Hm.
    destruct (Heap.get_path H propSchema _) as [model|e],
             (get_path tps _) as [tm|e']; simpl in Hm; try done.
    cbn [mbind result_bind].
    destruct (store_descriptor (@is_relationship) h Hs a H acc prop
                [("type", Heap.HStr "hasMany"); ("model", model)]
                {| rel_type := hasMany; rel_model := tm |})
      as (H2 & -> & HQ); try done.
    + intros lo H1 H1' x v Hx Hun. by eapply is_relationship_frame.
    + intros H2 HH2. exists (length H), model.
      split_and!; [done|lia|done|done].
  - rewrite bind_read.
    rewrite (get_prop_built H o po "relationships" (Heap.HRef a))
      by (done || by apply Hu).
    rewrite bind_read.
    pose proof (get_path_sim h H tps propSchema
                  ["properties"; "data"; "properties"; "type"; "enum"; "0"]
                  Hps HkH) as Hm.
    destruct (Heap.get_path H propSchema _) as [model|e],
             (get_path tps _) as [tm|e']; simpl in Hm; try done.
    cbn [mbind result_bind].
    destruct (store_descriptor (@is_relationship) h Hs a H acc prop
                [("type", Heap.HStr "hasOne"); ("model", model)]
                {| rel_type := hasOne; rel_model := tm |})
      as (H2 & -> & HQ); try done.
    + intros lo H1 H1' x v Hx Hun. by eapply is_relationship_frame.
    + intros H2 HH2. exists (length H), model.
      split_and!; [done|lia|done|done].
Qed.

(** ** The two halves of [serialize] *)

(** One half of [serialize]: when the definition has the member [field],
    a fresh sub-map is assigned to the output object at [o] and filled by
    the callback. *)
Lemma submap_branch_sim {X}
    (R : nat → list Heap.hobject → list Heap.hobject → X → Heap.hvalue → Prop)
    (field : string) (f : Heap.hvalue → string → Heap.St unit)
    (g : value → gmap string X → string → result (gmap string X))
    h H tschema schema o po tsub sub :
  field ≠ "__proto__" →
  (∀ lo lo' H1 H2 x v,
     R lo h H1 x v → (lo' ≤ lo)%nat →
     unchanged (λ l, (lo ≤ l)%nat) H1 H2 → R lo' h H2 x v) →
  (∀ Hs props a po' H' acc prop,
     get_path tschema ["properties"; field; "properties"] = Ok props →
     keeps h Hs → (length h ≤ a)%nat → o ≠ a →
     Hs !! o = Some (Heap.HObj po') →
     Heap.lookup_prop field po' = Some (Heap.HRef a) →
     (a < length H')%nat ∧ unchanged (λ l, l ≠ a) Hs H'
     ∧ (∃ ps, H' !! a = Some (Heap.HObj ps)
              ∧ is_map (R (S a) h H') acc ps) →
     sim (f (Heap.HRef o) prop) H' (g props acc prop)
       (λ _ acc' H'',
          (a < length H'')%nat ∧ unchanged (λ l, l ≠ a) Hs H''
          ∧ ∃ ps, H'' !! a = Some (Heap.HObj ps)
                  ∧ is_map (R (S a) h H'') acc' ps)
       (unchanged (λ l, l ≠ a) Hs)) →
  represents h tschema schema → keeps h H → (length h ≤ o)%nat →
  H !! o = Some (Heap.HObj po) → Heap.lookup_prop field po = None →
  get_path tschema ["properties"; field] = Ok tsub →
  represents h tsub sub →
  sim (if Heap.truthy sub then
         fresh ← Heap.new_object [];
         _ ← Heap.set_prop (Heap.HRef o) field fresh;
         names ← Heap.read (λ h,
                    props ← Heap.get_path h schema
                      ["properties"; field; "properties"];
                    Heap.Object_keys h props);
         Heap.forEach (f (Heap.HRef o)) names
       else mret ()) H
    (if truthy tsub then
       props ← get_prop tsub "properties";
       names ← Object_keys props;
       out ← forEach (g props) names ∅;
       Ok (Some out)
     else Ok None)
    (λ _ out H',
       unchanged (λ l, l ≠ o) H H'
       ∧ ∃ po', H' !! o = Some (Heap.HObj po')
                ∧ opt_rel (is_submap R (length H) h H') out
                    (Heap.lookup_prop field po')
                ∧ ∀ k, k ≠ field →
                       Heap.lookup_prop k po' = Heap.lookup_prop k po)
    (unchanged (λ l, l ≠ o) H).
Proof.
  intros Hfield Hframe Hstep Hrep Hk Ho Hpo Hnone Hsub Hrsub.
  rewrite (truthy_sim h tsub sub Hrsub). unfold sim.
  destruct (truthy tsub); cycle 1.
  { change (unchanged (λ l, l ≠ o) H H
            ∧ ∃ po', H !! o = Some (Heap.HObj po')
                     ∧ opt_rel (is_submap R (length H) h H) None
                         (Heap.lookup_prop field po')
                     ∧ ∀ k, k ≠ field →
                            Heap.lookup_prop k po' = Heap.lookup_prop k po).
    split; [by intros l ob _ Hl|]. exists po. by rewrite Hnone. }
  pose proof (lookup_lt_Some _ _ _ Hpo) as Holt.
  rewrite bind_new. set (a := length H).
  set (H1 := (H ++ [Heap.HObj []])%list).
  rewrite bind_run.
  rewrite (set_prop_object o field (Heap.HRef a) po H1)
    by (by apply lookup_app_l_Some).
  replace (String.eqb field "__proto__") with false
    by (symmetry; by apply String.eqb_neq).
  set (po1 := Heap.assign field (Heap.HRef a) po).
  set (H2 := <[o := Heap.HObj po1]> H1).
  assert (length H1 = S a) as HlenH1
    by (unfold H1; rewrite length_app; simpl; lia).
  assert (keeps H H1) as HkH1 by apply keeps_app.
  assert (unchanged (λ l, l ≠ o) H H2) as HuH2.
  { intros l ob Hl Hob. unfold H2.
    rewrite list_lookup_insert_ne by done. by apply HkH1. }
  assert (keeps h H2) as HkH2.
  { intros l ob Hl. apply HuH2; [|by apply Hk].
    apply lookup_lt_Some in Hl. lia. }
  assert (H2 !! o = Some (Heap.HObj po1)) as Ho2.
  { unfold H2. apply list_lookup_insert_eq. lia. }
  assert (H2 !! a = Some (Heap.HObj [])) as Ha2.
  { unfold H2. rewrite list_lookup_insert_ne by lia.
    unfold H1, a. by rewrite lookup_app_r, Nat.sub_diag by lia. }
  assert (Heap.lookup_prop field po1 = Some (Heap.HRef a)) as Hfa.
  { unfold po1. rewrite lookup_prop_assign. by rewrite String.eqb_refl. }
  assert (∀ H', unchanged (λ l, l ≠ a) H2 H' →
                unchanged (λ l, l ≠ o) H H') as Hbase.
  { intros H' Hu l ob Hl Hob. apply Hu; [|by apply HuH2].
    apply lookup_lt_Some in Hob. lia. }
  rewrite bind_read.
  pose proof (get_path_snoc_sim h H2 tschema schema
                ["properties"; field] "properties" tsub Hrep HkH2 Hsub)
    as Hprops.
  cbn [app] in Hprops.
  destruct (Heap.get_path H2 schema ["properties"; field; "properties"])
    as [props|e] eqn:Hhp,
    (get_prop tsub "properties") as [tprops|e'] eqn:Htp;
    simpl in Hprops; try done; cbn [mbind result_bind].
  rewrite (Object_keys_sim h H2 tprops props Hprops HkH2).
  destruct (Object_keys tprops) as [names|e]; cbn [mbind result_bind];
    [|by split].
  assert (get_path tschema ["properties"; field; "properties"] = Ok tprops)
    as Hpath.
  { change ["properties"; field; "properties"]
      with (["properties"; field] ++ ["properties"])%list.
    rewrite get_path_app, Hsub. cbn [mbind result_bind get_path].
    by rewrite Htp. }
  assert (sim (Heap.forEach (f (Heap.HRef o)) names) H2
            (forEach (g tprops) names ∅)
            (λ _ acc H',
               (a < length H')%nat ∧ unchanged (λ l, l ≠ a) H2 H'
               ∧ ∃ ps, H' !! a = Some (Heap.HObj ps)
                       ∧ is_map (R (S a) h H') acc ps)
            (unchanged (λ l, l ≠ a) H2)) as Hloop.
  { apply (forEach_sim (f (Heap.HRef o)) (g tprops)
             (λ H' acc,
                (a < length H')%nat ∧ unchanged (λ l, l ≠ a) H2 H'
                ∧ ∃ ps, H' !! a = Some (Heap.HObj ps)
                        ∧ is_map (R (S a) h H') acc ps)).
    - intros H' acc x HInv.
      apply (Hstep H2 tprops a po1 H' acc x);
        [done | done | unfold a; lia | lia | done | done | done].
    - split_and!; [apply lookup_lt_Some in Ha2; lia | by intros l ob _ Hl |].
      exists []. split; [done|]. apply is_map_empty. }
  unfold sim in Hloop.
  destruct (Heap.forEach (f (Heap.HRef o)) names H2) as [[[]|e] H3],
    (forEach (g tprops) names ∅) as [out|e'];
    cbn [mbind result_bind]; try done.
  - destruct Hloop as (Hlt & Hu & ps & Hps & Hmap).
    split; [by apply Hbase|]. exists po1. split_and!.
    + apply Hu; [lia|done].
    + rewrite Hfa. simpl. exists a, ps.
      split_and!; [done | unfold a; lia | done |].
      eapply is_map_impl; [|exact Hmap]. intros x v Hx.
      eapply Hframe; [exact Hx | unfold a; lia | by intros l ob _ Hl].
    + intros k Hkf. unfold po1. rewrite lookup_prop_assign.
      by replace (String.eqb field k) with false
        by (symmetry; apply String.eqb_neq; congruence).
  - destruct Hloop as (-> & Hu). split; [done|]. by apply Hbase.
Qed.

(** ** Rules for the steps of a run *)

Lemma sim_ret {A B} (a : A) (b : B) H
    (Q : A → B → list Heap.hobject → Prop) (E : list Heap.hobject → Prop) :
  Q a b H → sim (mret a) H (Ok b) Q E.
Proof. done. Qed.

Lemma sim_new {A B} props (k : Heap.hvalue → Heap.St A) H (p : result B)
    (Q : A → B → list Heap.hobject → Prop) (E : list Heap.hobject → Prop) :
  sim (k (Heap.HRef (length H))) (H ++ [Heap.HObj props])%list p Q E →
  sim (Heap.new_object props ≫= k) H p Q E.
Proof. done. Qed.

Lemma sim_read {A A' B B'} (Rr : A → A' → Prop)
    (f : list Heap.hobject → result A) (k : A → Heap.St B)
    (p : result A') (q : A' → result B') H
    (Q : B → B' → list Heap.hobject → Prop) (E : list Heap.hobject → Prop) :
  res_rel Rr (f H) p → E H →
  (∀ a a', Rr a a' → p = Ok a' → sim (k a) H (q a') Q E) →
  sim (Heap.read f ≫= k) H (p ≫= q) Q E.
Proof.
  intros Hr HE Hk. unfold sim. rewrite bind_read.
  destruct (f H) as [a|e], p as [a'|e']; simpl in Hr; try done.
  by apply Hk.
Qed.

Lemma sim_bind {A A' B B'} (c : Heap.St A) (k : A → Heap.St B)
    (p : result A') (q : A' → result B') H
    (Q1 : A → A' → list Heap.hobject → Prop) (E1 : list Heap.hobject → Prop)
    (Q : B → B' → list Heap.hobject → Prop) (E : list Heap.hobject → Prop) :
  sim c H p Q1 E1 →
  (∀ H', E1 H' → E H') →
  (∀ a a' H', Q1 a a' H' → sim (k a) H' (q a') Q E) →
  sim (c ≫= k) H (p ≫= q) Q E.
Proof.
  intros Hc HE Hk. unfold sim in *. rewrite bind_run.
  destruct (c H) as [[a|e] H'], p as [a'|e']; try done.
  - by apply Hk.
  - destruct Hc as [-> HE1]. split; [done | by apply HE].
Qed.

(** ** serialize *)

(** [serialize] on the heap builds, in fresh objects, the model that
    [serialize] computes from the document, or throws the same exception;
    no object that was there before is changed. *)
Lemma serialize_sim h H options tschema schema :
  represents h tschema schema → keeps h H →
  sim (Heap.serialize schema options) H (serialize tschema options)
    (λ v M H', keeps H H' ∧ is_model (length H) h H' M v)
    (keeps H).
Proof.
  intros Hrep Hk. unfold Heap.serialize, serialize.
  apply sim_new. set (o := length H).
  set (H0 := (H ++ [Heap.HObj []])%list).
  assert (length h ≤ o)%nat as Hho by (by apply keeps_length).
  assert (keeps H H0) as HkHH0 by apply keeps_app.
  assert (keeps h H0) as HkH0 by exact (keeps_trans _ _ _ Hk HkHH0).
  assert (H0 !! o = Some (Heap.HObj [])) as Ho0.
  { unfold H0, o. by rewrite lookup_app_r, Nat.sub_diag by lia. }
  assert (length H0 = S o) as HlenH0
    by (unfold H0; rewrite length_app; simpl; unfold o; lia).
  assert (∀ H', unchanged (λ l, l ≠ o) H0 H' → keeps H H') as Hbase.
  { intros H' Hu l ob Hl. apply Hu; [|by apply HkHH0].
    apply lookup_lt_Some in Hl. unfold o. lia. }
  eapply sim_read; [by apply (get_path_sim h) | done |].
  intros attrs tattrs Hattrs Hta.
  eapply sim_bind.
  { apply (submap_branch_sim (@is_attribute) "attributes"
             (Heap.serialize_attribute options schema)
             (serialize_attribute options)
             h H0 tschema schema o [] tattrs attrs); try done.
    - intros; by eapply is_attribute_frame.
    - intros; by eapply serialize_attribute_sim. }
  { exact Hbase. }
  intros [] outAttrs H1 (Hu1 & po1 & Ho1 & Hsub1 & Hother1).
  assert (keeps H H1) as HkHH1 by (by apply Hbase).
  assert (keeps h H1) as HkH1 by exact (keeps_trans _ _ _ Hk HkHH1).
  assert (∀ H', unchanged (λ l, l ≠ o) H1 H' → keeps H H') as Hbase1.
  { intros H' Hu. apply Hbase. by eapply unchanged_trans. }
  eapply sim_read; [by apply (get_path_sim h) | done |].
  intros rels trels Hrels Htr.
  eapply sim_bind.
  { apply (submap_branch_sim (@is_relationship) "relationships"
             (Heap.serialize_relationship options schema)
             (serialize_relationship options)
             h H1 tschema schema o po1 trels rels); try done.
    - intros; by eapply is_relationship_frame.
    - intros; by eapply serialize_relationship_sim.
    - by apply Hother1. }
  { exact Hbase1. }
  intros [] outRels H2 (Hu2 & po2 & Ho2 & Hsub2 & Hother2).
  apply sim_ret. split; [by apply Hbase1|].
  pose proof (lookup_lt_Some _ _ _ Ho1) as Holt1.
  exists o, po2. split_and!; [done | done | done | | |].
  - rewrite Hother2 by done. eapply opt_rel_impl; [|exact Hsub1].
    intros m w Hm.
    assert (unchanged (λ l, (length H0 ≤ l)%nat) H1 H2) as Hu12.
    { eapply unchanged_weaken; [|exact Hu2]. simpl. lia. }
    eapply is_submap_frame; [|exact Hm| lia | done].
    intros x u Hx. eapply is_attribute_frame; [exact Hx | lia | done].
  - eapply opt_rel_impl; [|exact Hsub2]. intros m w Hm.
    eapply is_submap_frame; [|exact Hm| unfold o in *; lia
                             | by intros l ob _ Hl].
    intros x u Hx.
    eapply is_relationship_frame;
      [exact Hx | unfold o in *; lia | by intros l ob _ Hl].
  - intros k Hka Hkr. by rewrite Hother2, Hother1.
Qed.

(** ** Documents in a heap that has grown *)

Lemma represents_keeps h h' :
  keeps h h' → ∀ t v, represents h t v → represents h' t v.
Proof.
  intros Hk. fix IH 1. intros [| |b|n|s|ts|tps] v; simpl; try done.
  - intros (l & vs & -> & Hl & Hall). exists l, vs.
    split_and!; [done | by apply Hk |]. clear Hl.
    revert vs Hall. induction ts as [|t ts IHts]; intros [|w vs]; simpl;
      try done.
    intros [Ht Hall]. split; [by apply IH | by apply IHts].
  - intros (l & ps & -> & Hl & Hall). exists l, ps.
    split_and!; [done | by apply Hk |]. clear Hl.
    revert ps Hall. induction tps as [|[k t] tps IHtps]; intros [|[k' w] ps];
      simpl; try done.
    intros [[Hkk Ht] Hall]. split; [split; [done | by apply IH] | by apply IHtps].
Qed.

Lemma is_attribute_base lo h h' H x v :
  keeps h h' → is_attribute lo h H x v → is_attribute lo h' H x v.
Proof.
  intros Hk (l & ty & -> & Hlo & Hl & Hty). exists l, ty.
  split_and!; [done | done | done | by eapply represents_keeps].
Qed.

Lemma is_relationship_base lo h h' H x v :
  keeps h h' → is_relationship lo h H x v → is_relationship lo h' H x v.
Proof.
  intros Hk (l & model & -> & Hlo & Hl & Hmodel). exists l, model.
  split_and!; [done | done | done | by eapply represents_keeps].
Qed.

Lemma is_submap_base {X}
    (R : nat → list Heap.hobject → list Heap.hobject → X → Heap.hvalue → Prop)
    lo h h' H m v :
  (∀ x w, R lo h H x w → R lo h' H x w) →
  is_submap R lo h H m v → is_submap R lo h' H m v.
Proof.
  intros HR (l & ps & -> & Hlo & Hl & Hmap). exists l, ps.
  split_and!; [done | done | done | by eapply is_map_impl].
Qed.

Lemma is_model_base lo h h' H M v :
  keeps h h' → is_model lo h H M v → is_model lo h' H M v.
Proof.
  intros Hk (l & ps & -> & Hlo & Hl & Hattrs & Hrels & Hother).
  exists l, ps. split_and!; [done | done | done | | | done].
  - eapply opt_rel_impl; [|exact Hattrs]. intros m w Hm.
    eapply is_submap_base; [|exact Hm].
    intros x u Hx. by eapply is_attribute_base.
  - eapply opt_rel_impl; [|exact Hrels]. intros m w Hm.
    eapply is_submap_base; [|exact Hm].
    intros x u Hx. by eapply is_relationship_base.
Qed.

(** A schema that a run has built is still there after any run that keeps
    the objects of the heap. *)
Lemma is_schema_keeps lo lo' H H' S v :
  is_schema lo H H S v → (lo' ≤ lo)%nat → keeps H H' →
  is_schema lo' H' H' S v.
Proof.
  intros (l & s & ps & -> & Hlo & Hl & Hs & Hps & Hmap) Hle Hk.
  exists l, s, ps.
  split_and!; [done | lia | by apply Hk | lia | by apply Hk |].
  eapply is_map_impl; [|exact Hmap]. intros M w HM.
  eapply is_model_base; [exact Hk|].
  eapply is_model_frame; [exact HM | done | by apply unchanged_keeps].
Qed.

(** ** convertToOrbit *)

Lemma result_bind_assoc {A B C} (m : result A) (f : A → result B)
    (g : B → result C) :
  (m ≫= f) ≫= g = m ≫= (λ a, f a ≫= g).
Proof. by destruct m. Qed.

Lemma res_rel_eq {A} (r r' : result A) : r = r' → res_rel eq r r'.
Proof. intros <-. by destruct r. Qed.

(** One round of the loop over the definitions: the model is built in fresh
    objects and assigned to the schema object at [s]. *)
Lemma convert_type_sim b Hs options tentities entities s H acc type :
  represents b tentities entities → keeps b Hs → (length b ≤ s)%nat →
  (s < length H)%nat ∧ unchanged (λ l, l ≠ s) Hs H
  ∧ (∃ ps, H !! s = Some (Heap.HObj ps)
           ∧ is_map (is_model (S s) b H) acc ps) →
  sim (Heap.convert_type options entities (Heap.HRef s) type) H
    (convert_type options tentities acc type)
    (λ _ acc' H',
       (s < length H')%nat ∧ unchanged (λ l, l ≠ s) Hs H'
       ∧ ∃ ps, H' !! s = Some (Heap.HObj ps)
               ∧ is_map (is_model (S s) b H') acc' ps)
    (unchanged (λ l, l ≠ s) Hs).
Proof.
  intros Hent Hk Hs' (Hlt & Hu & ps & Hps & Hmap).
  assert (keeps b H) as HkH by (by eapply unchanged_fresh_keeps).
  unfold Heap.convert_type, convert_type.
  destruct (not_in_whitelist options type).
  { apply sim_ret. split_and!; [done | done |]. by exists ps. }
  cbv zeta. unfold definition_model. rewrite result_bind_assoc.
  eapply sim_read; [by apply (get_prop_sim b) | done |].
  intros definition tdefinition Hdef _.
  eapply sim_bind; [by apply (serialize_sim b) | |].
  { intros H' HkHH'. eapply unchanged_trans; [exact Hu|].
    by apply unchanged_keeps. }
  intros model M H' (HkHH' & Hmodel). unfold sim.
  rewrite (set_prop_object s _ model ps H') by (by apply HkHH').
  set (ps' := if String.eqb _ "__proto__" then ps else _).
  set (H2 := <[s := Heap.HObj ps']> H').
  assert (unchanged (λ l, l ≠ s) H H2) as HuH2.
  { eapply unchanged_trans; [by apply unchanged_keeps|].
    apply unchanged_insert. }
  pose proof (keeps_length _ _ HkHH') as Hlen.
  split_and!.
  - unfold H2. rewrite length_insert. lia.
  - by eapply unchanged_trans.
  - exists ps'. split; [unfold H2; apply list_lookup_insert_eq; lia|].
    apply is_map_store.
    + eapply is_map_impl; [|exact Hmap]. intros M' w HM'.
      eapply is_model_frame; [exact HM' | done |].
      eapply unchanged_weaken; [|exact HuH2]. simpl. lia.
    + eapply is_model_frame; [exact Hmodel | lia |].
      eapply unchanged_weaken; [|apply unchanged_insert]. simpl. lia.
Qed.

Lemma definitions_of_sim JSON_parse_h JSON_parse h H tbody body :
  parser_refines JSON_parse_h JSON_parse →
  represents h tbody body → keeps h H →
  sim (Heap.definitions_of JSON_parse_h body) H
    (definitions_of JSON_parse tbody)
    (λ entities tentities H',
       keeps H H' ∧ represents H' tentities entities)
    (keeps H).
Proof.
  intros Hparse Hrep Hk.
  assert (∀ body' tbody',
            represents h tbody' body' →
            sim (Heap.read (λ h, Heap.get_prop h body' "definitions")) H
              (get_prop tbody' "definitions")
              (λ entities tentities H',
                 keeps H H' ∧ represents H' tentities entities)
              (keeps H)) as Hread.
  { intros body' tbody' Hrep'. unfold sim, Heap.read.
    pose proof (get_prop_sim h H tbody' body' "definitions" Hrep' Hk) as Hd.
    destruct (Heap.get_prop H body' "definitions"),
             (get_prop tbody' "definitions"); simpl in Hd; try done.
    - split; [apply keeps_refl | by eapply represents_keeps].
    - split; [done | apply keeps_refl]. }
  destruct tbody as [| |b|n|text|ts|tps].
  1-4: simpl in Hrep; subst body; by apply Hread.
  2,3: pose proof Hrep as (l & ? & -> & _); by apply Hread.
  simpl in Hrep. subst body.
  change (Heap.definitions_of JSON_parse_h (Heap.HStr text))
    with (doc ← JSON_parse_h text;
          Heap.read (λ h, Heap.get_prop h doc "definitions")).
  change (definitions_of JSON_parse (VStr text))
    with (doc ← JSON_parse text; get_prop doc "definitions").
  destruct (Hparse text H) as [Hkp Hres].
  unfold sim. rewrite bind_run.
  destruct (JSON_parse_h text H) as [[doc|e] Hp],
           (JSON_parse text) as [tdoc|e']; simpl in Hkp, Hres; try done.
  cbn [mbind result_bind]. unfold Heap.read.
  pose proof (get_prop_sim Hp Hp tdoc doc "definitions" Hres
                (keeps_refl Hp)) as Hd.
  destruct (Heap.get_prop Hp doc "definitions"),
           (get_prop tdoc "definitions"); simpl in Hd; try done.
Qed.

(** [convertToOrbit] on the heap builds, in fresh objects, the schema that
    [convertToOrbit] computes from the document, or throws the same
    exception; no object that was there before is changed. *)
Lemma convertToOrbit_sim JSON_parse_h JSON_parse options h H tbody body :
  parser_refines JSON_parse_h JSON_parse →
  represents h tbody body → keeps h H →
  sim (Heap.convertToOrbit JSON_parse_h body options) H
    (convertToOrbit JSON_parse tbody options)
    (λ v S H', keeps H H' ∧ is_schema (length H) H' H' S v)
    (keeps H).
Proof.
  intros Hparse Hrep Hk. unfold Heap.convertToOrbit, convertToOrbit, reduce.
  eapply sim_bind; [by eapply definitions_of_sim | done |].
  intros entities tentities Hc (HkHc & Hent).
  eapply (sim_read eq);
    [apply res_rel_eq, (Object_keys_sim Hc Hc tentities entities Hent),
       keeps_refl
    | done |].
  intros types ? <- _.
  apply sim_new. set (s := length Hc).
  set (Hc2 := (Hc ++ [Heap.HObj []])%list).
  assert (keeps Hc Hc2) as HkHc2 by apply keeps_app.
  assert (∀ H', unchanged (λ l, l ≠ s) Hc2 H' → keeps Hc H') as Hbase.
  { intros H' Hu. eapply (unchanged_fresh_keeps s); [done | exact HkHc2 |].
    done. }
  eapply sim_bind.
  { apply (forEach_sim (Heap.convert_type options entities (Heap.HRef s))
             (convert_type options tentities)
             (λ H' acc,
                (s < length H')%nat ∧ unchanged (λ l, l ≠ s) Hc2 H'
                ∧ ∃ ps, H' !! s = Some (Heap.HObj ps)
                        ∧ is_map (is_model (S s) Hc H') acc ps)).
    - intros H' acc type HInv.
      by apply (convert_type_sim Hc Hc2).
    - split_and!.
      + unfold Hc2. rewrite length_app. simpl. unfold s. lia.
      + by intros l ob _ Hl.
      + exists []. split; [|apply is_map_empty].
        unfold Hc2, s. by rewrite lookup_app_r, Nat.sub_diag by lia. }
  { intros H' Hu. eapply keeps_trans; [exact HkHc | by apply Hbase]. }
  intros [] acc H3 (Hlt & Hu & ps & Hps & Hmap).
  unfold sim, Heap.new_object.
  set (H4 := (H3 ++ [Heap.HObj [("models", Heap.HRef s)]])%list).
  assert (keeps H3 H4) as HkH34 by apply keeps_app.
  assert (keeps Hc H4) as HkHc4.
  { eapply keeps_trans; [by apply Hbase | done]. }
  pose proof (keeps_length _ _ HkHc) as Hlen.
  split; [by eapply keeps_trans|].
  exists (length H3), s, ps. split_and!.
  - done.
  - lia.
  - unfold H4. by rewrite lookup_app_r, Nat.sub_diag by lia.
  - unfold s. lia.
  - by apply HkH34.
  - eapply is_map_impl; [|exact Hmap]. intros M w HM.
    eapply is_model_base; [exact HkHc4|].
    eapply is_model_frame; [exact HM | unfold s; lia |].
    by apply unchanged_keeps.
Qed.

(** ** Documents built in the heap *)

Lemma all2_impl {A B} (R R' : A → B → Prop) xs ys :
  (∀ x y, R x y → R' x y) → all2 R xs ys → all2 R' xs ys.
Proof.
  intros HRR'. revert ys. induction xs as [|x xs IH]; intros [|y ys]; simpl;
    try done.
  intros [Hxy Hall]. split; [by apply HRR' | by apply IH].
Qed.

Lemma alloc_spec t :
  ∀ h, keeps h (alloc t h).2 ∧ represents (alloc t h).2 t (alloc t h).1.
Proof.
  revert t. fix IH 1. intros [| |b|n|s|ts|tps] h; simpl;
    try (split; [apply keeps_refl | done]).
  - assert (∀ h, keeps h (alloc_all alloc ts h).2
                 ∧ all2 (represents (alloc_all alloc ts h).2) ts
                     (alloc_all alloc ts h).1)
      as Hitems.
    { clear h. induction ts as [|t ts IHts]; intros h; simpl.
      - split; [apply keeps_refl | done].
      - destruct (IH t h) as [Hk1 Hr1].
        destruct (alloc t h) as [v h1]. simpl in Hk1, Hr1.
        destruct (IHts h1) as [Hk2 Hr2].
        destruct (alloc_all alloc ts h1) as [vs h2]. simpl in *.
        split; [by eapply keeps_trans|].
        split; [by eapply represents_keeps | done]. }
    destruct (Hitems h) as [Hk Hall].
    destruct (alloc_all alloc ts h) as [vs h']. simpl in *.
    split; [eapply keeps_trans; [exact Hk | apply keeps_app]|].
    exists (length h'), vs. split_and!; [done | |].
    + by rewrite lookup_app_r, Nat.sub_diag by lia.
    + eapply all2_impl; [|exact Hall]. intros t v.
      apply represents_keeps, keeps_app.
  - set (member := λ '(k, t) h,
                     let '(v, h1) := alloc t h in ((k, v), h1)).
    assert (∀ h, keeps h (alloc_all member tps h).2
                 ∧ all2 (λ tp p, tp.1 = p.1
                                 ∧ represents (alloc_all member tps h).2
                                     tp.2 p.2)
                     tps (alloc_all member tps h).1)
      as Hmembers.
    { clear h. induction tps as [|[k t] tps IHtps]; intros h; simpl.
      - split; [apply keeps_refl | done].
      - destruct (IH t h) as [Hk1 Hr1].
        destruct (alloc t h) as [v h1]. simpl in Hk1, Hr1.
        destruct (IHtps h1) as [Hk2 Hr2].
        destruct (alloc_all member tps h1) as [ps h2]. simpl in *.
        split; [by eapply keeps_trans|].
        split; [split; [done | by eapply represents_keeps] | done]. }
    destruct (Hmembers h) as [Hk Hall].
    destruct (alloc_all member tps h) as [ps h']. simpl in *.
    split; [eapply keeps_trans; [exact Hk | apply keeps_app]|].
    exists (length h'), ps. split_and!; [done | |].
    + by rewrite lookup_app_r, Nat.sub_diag by lia.
    + eapply all2_impl; [|exact Hall]. intros tp p [Hkey Hr].
      split; [done|]. revert Hr. apply represents_keeps, keeps_app.
Qed.

(** Every parser of texts, run on the heap, refines itself. *)
Lemma parse_on_heap_refines parse :
  parser_refines (parse_on_heap parse) parse.
Proof.
  intros text H. unfold parse_on_heap.
  destruct (parse text) as [t|e]; simpl; [|split; [apply keeps_refl | done]].
  pose proof (alloc_spec t H) as [Hk Hr].
  by destruct (alloc t H) as [v H'].
Qed.

(** ** Determinism *)

(** C8. [convertToOrbit] is deterministic and changes none of the objects
    it is given.  Run twice in a row on a document and options, the second
    time on the heap the first run has left, the transformer either throws
    the same exception both times, the one [convertToOrbit] throws on the
    document, or returns two objects, built in fresh locations, that hold
    the same schema, key by key: the one [convertToOrbit] computes from the
    document.  Every object that was in the heap before a run, the document
    among them, is still there, unchanged, after it; the result of the first
    run is still there after the second. *)
Theorem two_runs_build_the_same_schema JSON_parse_h JSON_parse options h
    tbody body :
  parser_refines JSON_parse_h JSON_parse →
  represents h tbody body →
  let first := Heap.convertToOrbit JSON_parse_h body options h in
  let second := Heap.convertToOrbit JSON_parse_h body options first.2 in
  keeps h first.2 ∧ keeps first.2 second.2
  ∧ match first.1, second.1, convertToOrbit JSON_parse tbody options with
    | Ok v1, Ok v2, Ok schema =>
        is_schema (length h) first.2 first.2 schema v1
        ∧ is_schema (length h) second.2 second.2 schema v1
        ∧ is_schema (length first.2) second.2 second.2 schema v2
    | Throw e1, Throw e2, Throw e => e1 = e ∧ e2 = e
    | _, _, _ => False
    end.
Proof.
  intros Hparse Hrep first second.
  pose proof (convertToOrbit_sim JSON_parse_h JSON_parse options h h
                tbody body Hparse Hrep (keeps_refl h)) as H1.
  unfold sim in H1. fold first in H1.
  assert (keeps h first.2) as Hk1.
  { destruct first as [[v1|e1] H'],
      (convertToOrbit JSON_parse tbody options); simpl; try done;
      [by destruct H1 | by destruct H1]. }
  pose proof (convertToOrbit_sim JSON_parse_h JSON_parse options h first.2
                tbody body Hparse Hrep Hk1) as H2.
  unfold sim in H2. fold second in H2.
  destruct first as [[v1|e1] H'], second as [[v2|e2] H''],
    (convertToOrbit JSON_parse tbody options) as [schema|e]; simpl in *;
    try done.
  - destruct H1 as [_ HS1], H2 as [Hk2 HS2].
    split_and!; [done | done | done | | done].
    eapply is_schema_keeps; [exact HS1 | done | done].
  - destruct H1 as [-> _], H2 as [-> Hk2]. done.
Qed.

Lemma two_runs_build_the_same_schema_witness :
  parser_refines (parse_on_heap reject_text) reject_text
  ∧ represents site_heap site_doc site_body
  ∧ (let first :=
       Heap.convertToOrbit (parse_on_heap reject_text) site_body no_filters
         site_heap in
     let second :=
       Heap.convertToOrbit (parse_on_heap reject_text) site_body no_filters
         first.2 in
     keeps site_heap first.2 ∧ keeps first.2 second.2
     ∧ match first.1, second.1,
             convertToOrbit reject_text site_doc no_filters with
       | Ok v1, Ok v2, Ok schema =>
           is_schema (length site_heap) first.2 first.2 schema v1
           ∧ is_schema (length site_heap) second.2 second.2 schema v1
           ∧ is_schema (length first.2) second.2 second.2 schema v2
       | Throw e1, Throw e2, Throw e => e1 = e ∧ e2 = e
       | _, _, _ => False
       end).
Proof.
  pose proof (parse_on_heap_refines reject_text) as Hparse.
  pose proof (alloc_spec site_doc []) as [_ Hrep].
  split; [exact Hparse|]. split; [exact Hrep|].
  exact (two_runs_build_the_same_schema (parse_on_heap reject_text)
           reject_text no_filters site_heap site_doc site_body Hparse Hrep).
Defined.

(** The two runs on the document of the examples: each returns a fresh
    object, and the objects of the document are as they were. *)
Example two_runs_on_site :
  let first :=
    Heap.convertToOrbit (parse_on_heap reject_text) site_body no_filters
      site_heap in
  let second :=
    Heap.convertToOrbit (parse_on_heap reject_text) site_body no_filters
      first.2 in
  first.1 = Ok (Heap.HRef 39) ∧ second.1 = Ok (Heap.HRef 51)
  ∧ take (length site_heap) second.2 = site_heap
  ∧ convertToOrbit reject_text site_doc no_filters = Ok site_schema.
Proof. vm_compute. done. Qed.

(** ** The fetch pipeline *)

(** X17.  When [getToken] fulfils, the access token can be read and
    [axios.get] delivers a response whose data converts, the promise of
    [generate] is fulfilled with the converted schema; nothing is logged and
    no rejection is left unhandled. *)
Lemma generate_resolves JSON_parse oAuth axios_get options token response schema :
  Fetcher.getToken oAuth = Fetcher.Returns (Fetcher.Fulfilled ()) →
  get_prop (Fetcher.tokenInformation oAuth) "access_token" = Ok token →
  axios_get {| Fetcher.url := "/openapi/jsonapi?_format=json";
               Fetcher.baseURL := base options;
               Fetcher.bearer := token |}
  = Fetcher.Returns (Fetcher.Fulfilled response) →
  convertToOrbit JSON_parse (Fetcher.data response) options = Ok schema →
  Fetcher.generate JSON_parse oAuth axios_get options
  = Fetcher.quiet (Fetcher.Fulfilled schema).
Proof.
  intros Htoken Hinfo Hget Hconv. unfold Fetcher.generate, Fetcher.on_token.
  rewrite Htoken, Hinfo, Hget. unfold Fetcher.on_response. by rewrite Hconv.
Qed.

Example generate_site :
  Fetcher.generate reject_text working_oAuth (serve site_doc) no_filters
  = Fetcher.quiet (Fetcher.Fulfilled site_schema).
Proof. vm_compute. reflexivity. Qed.

(** X18.  A failed document read is logged and the promise never settles. *)
Lemma generate_transport_error JSON_parse oAuth axios_get options token err :
  Fetcher.getToken oAuth = Fetcher.Returns (Fetcher.Fulfilled ()) →
  get_prop (Fetcher.tokenInformation oAuth) "access_token" = Ok token →
  axios_get {| Fetcher.url := "/openapi/jsonapi?_format=json";
               Fetcher.baseURL := base options;
               Fetcher.bearer := token |}
  = Fetcher.Returns (Fetcher.Rejected err) →
  Fetcher.generate JSON_parse oAuth axios_get options
  = {| Fetcher.promise := Fetcher.Pending;
       Fetcher.logged := [err];
       Fetcher.unhandled := [] |}.
Proof.
  intros Htoken Hinfo Hget. unfold Fetcher.generate, Fetcher.on_token.
  by rewrite Htoken, Hinfo, Hget.
Qed.

(** A synchronous exception of [getToken] is the one credential failure
    that does reach the caller: the executor throws, and the promise is
    rejected with what was thrown. *)
Lemma generate_getToken_throws JSON_parse info axios_get options r :
  Fetcher.promise
    (Fetcher.generate JSON_parse
       {| Fetcher.getToken := Fetcher.Throws r;
          Fetcher.tokenInformation := info |}
       axios_get options)
  = Fetcher.Rejected r.
Proof. reflexivity. Qed.

(** C9.  When the promise of [getToken] is rejected, the promise returned by
    [generate] is never settled, so it is not rejected with the reason: the
    reason is left as an unhandled rejection, nothing is logged, and nothing
    reaches the caller. *)
Theorem credential_rejection_leaves_generate_pending
    JSON_parse info axios_get options r :
  let run :=
    Fetcher.generate JSON_parse
      {| Fetcher.getToken := Fetcher.Returns (Fetcher.Rejected r);
         Fetcher.tokenInformation := info |}
      axios_get options in
  Fetcher.promise run = Fetcher.Pending
  ∧ Fetcher.promise run ≠ Fetcher.Rejected r
  ∧ Fetcher.unhandled run = [r]
  ∧ Fetcher.logged run = [].
Proof. intros run. subst run. simpl. by split_and!. Qed.

Example generate_failing_oAuth :
  Fetcher.promise
    (Fetcher.generate reject_text failing_oAuth (serve site_doc) no_filters)
  = Fetcher.Pending.
Proof. reflexivity. Qed.

(* ================================================================== *)
(** * Further properties of the code *)

(** ** More on collecting loops *)

Lemma not_in_whitelist_spec options type :
  not_in_whitelist options type = false ↔ passes_whitelist options type.
Proof.
  unfold not_in_whitelist, passes_whitelist.
  destruct (whitelist options) as [w|]; [|by split].
  destruct (wl_resources w) as [names|] eqn:Hn; [|split; [congruence|done]].
  rewrite Z.ltb_ge, indexOf_nonneg. split.
  - intros Hin w' names' [= <-] Hn'. congruence.
  - intros Hpass. by apply (Hpass w names).
Qed.

Lemma forEach_app {A S} (f : S → A → result S) xs ys s :
  forEach f (xs ++ ys) s = (s' ← forEach f xs s; forEach f ys s').
Proof.
  revert s. induction xs as [|x xs IH]; intros s; simpl; [done|].
  destruct (f s x); simpl; [apply IH | done].
Qed.

(** The loop depends on the skip test and on the computation only at the
    entries it visits, and on the computation only where the entry is not
    skipped. *)
Lemma collect_ext {A V} (skip1 skip2 : A → bool) (key : A → string)
    (compute1 compute2 : A → result V) xs acc :
  (∀ x, x ∈ xs → skip1 x = skip2 x) →
  (∀ x, x ∈ xs → skip1 x = false → compute1 x = compute2 x) →
  forEach (collect skip1 key compute1) xs acc
  = forEach (collect skip2 key compute2) xs acc.
Proof.
  revert acc. induction xs as [|x xs IH]; intros acc Hskip Hcompute; [done|].
  change (forEach (collect skip1 key compute1) (x :: xs) acc)
    with (collect skip1 key compute1 acc x
          ≫= forEach (collect skip1 key compute1) xs).
  change (forEach (collect skip2 key compute2) (x :: xs) acc)
    with (collect skip2 key compute2 acc x
          ≫= forEach (collect skip2 key compute2) xs).
  assert (collect skip1 key compute1 acc x = collect skip2 key compute2 acc x)
    as ->.
  { unfold collect. rewrite <- (Hskip x) by left.
    destruct (skip1 x) eqn:Hs; [done|]. by rewrite (Hcompute x) by (left || done). }
  destruct (collect skip2 key compute2 acc x) as [acc'|]; [|done].
  cbn [mbind result_bind]. apply IH.
  - intros y Hy. apply Hskip. by right.
  - intros y Hy. apply Hcompute. by right.
Qed.

(** Entries with other keys leave a key alone. *)
Lemma collect_untouched {A V} (skip : A → bool) (key : A → string)
    (compute : A → result V) xs acc out k :
  forEach (collect skip key compute) xs acc = Ok out →
  (∀ x, x ∈ xs → skip x = false → key x ≠ k) →
  out !! k = acc !! k.
Proof.
  revert acc. induction xs as [|x xs IH]; intros acc Hrun Hother.
  - simpl in Hrun. by simplify_eq.
  - simpl in Hrun. apply bind_Ok in Hrun as (acc' & Hstep & Hrun).
    rewrite (IH _ Hrun) by (intros y Hy; apply Hother; by right).
    unfold collect in Hstep. destruct (skip x) eqn:Hs; [by simplify_eq|].
    apply bind_Ok in Hstep as (v & Hv & [= <-]).
    apply lookup_store_ne, Hother; [left | done].
Qed.

(** The last entry stored under a key is the one that stays. *)
Lemma collect_last_wins {A V} (skip : A → bool) (key : A → string)
    (compute : A → result V) before x after acc out :
  forEach (collect skip key compute) (before ++ x :: after) acc = Ok out →
  skip x = false →
  key x ≠ "__proto__" →
  (∀ y, y ∈ after → skip y = false → key y ≠ key x) →
  ∃ v, compute x = Ok v ∧ out !! key x = Some v.
Proof.
  rewrite forEach_app. intros (acc1 & _ & Hrun)%bind_Ok Hs Hkey Hafter.
  simpl in Hrun. apply bind_Ok in Hrun as (acc2 & Hstep & Hrun).
  unfold collect in Hstep. rewrite Hs in Hstep.
  apply bind_Ok in Hstep as (v & Hv & [= <-]).
  exists v. split; [done|].
  rewrite (collect_untouched _ _ _ _ _ _ _ Hrun Hafter).
  by apply lookup_store_eq.
Qed.

(** When the key of an entry is the entry itself, the result is the graph
    of the computation on the entries that are stored. *)
Lemma collect_id_lookup {V} (skip : string → bool)
    (compute : string → result V) xs out p v :
  forEach (collect skip id compute) xs ∅ = Ok out →
  out !! p = Some v
  ↔ p ∈ xs ∧ skip p = false ∧ p ≠ "__proto__" ∧ compute p = Ok v.
Proof.
  intros Hrun. split.
  - intros Hp.
    destruct (collect_lookup_inv _ _ _ _ _ _ _ _ Hrun Hp)
      as [Hempty|(x & Hin & Hs & Hx & Hv)];
      [by rewrite lookup_empty in Hempty|].
    simpl in Hx. subst x. split_and!; try done.
    intros ->. by rewrite (collect_no_proto _ _ _ _ _ _ Hrun) in Hp.
  - intros (Hin & Hs & Hproto & Hv).
    destruct (collect_lookup_some _ _ _ _ _ _ _ Hrun Hin Hs Hproto)
      as (y & v' & _ & _ & Hy & Hv' & Hout).
    simpl in Hy, Hout. subst y. congruence.
Qed.

(** Every entry that is not skipped was computed. *)
Lemma collect_each_computed {A V} (skip : A → bool) (key : A → string)
    (compute : A → result V) xs acc out x :
  forEach (collect skip key compute) xs acc = Ok out →
  x ∈ xs → skip x = false → ∃ v, compute x = Ok v.
Proof.
  intros Hrun Hin Hs. destruct (compute x) as [v|e] eqn:Hx; [by exists v|].
  destruct (collect_throws skip key compute xs acc x e Hin Hs Hx)
    as (y & e' & _ & _ & _ & Hfail).
  congruence.
Qed.

(** ** Keys *)

(** X1.  Only the first separator of a type name is rewritten: what precedes it
    and everything after it are kept as they are. *)
Theorem key_rewrites_first_separator (a b : string) :
  separators a = 0 →
  String_replace (a +:+ ":" +:+ b) ":" "--" = a +:+ "--" +:+ b.
Proof.
  induction a as [|c a IH]; intros Hnone.
  - change ("" +:+ ":" +:+ b) with (String ":" b).
    by rewrite String_replace_cons.
  - change (String c a +:+ ":" +:+ b) with (String c (a +:+ ":" +:+ b)).
    rewrite String_replace_cons. simpl in Hnone.
    destruct (Ascii.eqb c ":"); [done|].
    by rewrite IH.
Qed.

Lemma key_rewrites_first_separator_witness :
  separators "taxonomy" = 0
  ∧ String_replace "taxonomy:term:tags" ":" "--" = "taxonomy--term:tags".
Proof.
  split; [reflexivity|].
  exact (key_rewrites_first_separator "taxonomy" "term:tags" eq_refl).
Defined.

Lemma String_replace_single_separator_witness :
  (separators "node:article" ≤ 1)%nat
  ∧ String_replace "node:article" ":" "--"
    = rewrite_separators "node:article".
Proof.
  split; [vm_compute; lia|].
  apply (String_replace_single_separator "node:article"). vm_compute. lia.
Defined.

Lemma whitelist_key_count_witness :
  convertToOrbit reject_text site_doc only_articles = Ok article_schema
  ∧ size (models article_schema)
    = length (filter (λ t, t ∈ ["node:article"]
                           ∧ String_replace t ":" "--" ≠ "__proto__")
                ["node:article"; "node:page"]).
Proof.
  split; [vm_compute; reflexivity|].
  apply (whitelist_key_count reject_text site_doc only_articles
           {| wl_resources := Some ["node:article"] |} ["node:article"]
           article_schema
           (VObj [("node:article", article_def); ("node:page", page_def)])
           ["node:article"; "node:page"]);
    [reflexivity | reflexivity | vm_compute; reflexivity
    | reflexivity | reflexivity | vm_compute; apply NoDup_singleton].
Defined.

(** X4.  When several declared types are given the same key, other than
    [__proto__], the model stored under it is the serialization of the one
    declared last; in particular a type whose key no later type shares is
    stored as the serialization of its own definition. *)
Theorem last_declared_type_wins
    JSON_parse body options out entities before type after :
  convertToOrbit JSON_parse body options = Ok out →
  definitions_of JSON_parse body = Ok entities →
  Object_keys entities = Ok (before ++ type :: after)%list →
  passes_whitelist options type →
  String_replace type ":" "--" ≠ "__proto__" →
  (∀ later, later ∈ after → passes_whitelist options later →
     String_replace later ":" "--" ≠ String_replace type ":" "--") →
  ∃ definition model,
    get_prop entities type = Ok definition ∧
    serialize definition options = Ok model ∧
    models out !! (String_replace type ":" "--") = Some model.
Proof.
  intros (entities' & types' & Hent' & Htypes' & Hrun)%convertToOrbit_inv
    Hent Htypes Hpass%not_in_whitelist_spec Hkey Hafter.
  assert (entities' = entities) as -> by congruence.
  assert (types' = (before ++ type :: after)%list) as -> by congruence.
  destruct (collect_last_wins _ _ _ _ _ _ _ _ Hrun Hpass Hkey)
    as (model & Hmodel & Hlookup).
  { intros later Hin Hlater%not_in_whitelist_spec. by apply Hafter. }
  unfold definition_model in Hmodel.
  apply bind_Ok in Hmodel as (definition & Hdef & Hser).
  by exists definition, model.
Qed.

Lemma last_declared_type_wins_witness :
  convertToOrbit reject_text colliding_doc no_filters = Ok article_schema
  ∧ ∃ definition model,
      get_prop (VObj [("node:article", VObj [("properties", VObj [])]);
                      ("node--article", article_def)]) "node--article"
      = Ok definition ∧
      serialize definition no_filters = Ok model ∧
      models article_schema !! (String_replace "node--article" ":" "--")
      = Some model.
Proof.
  split; [vm_compute; reflexivity|].
  apply (last_declared_type_wins reject_text colliding_doc no_filters
           article_schema _ ["node:article"] "node--article" []).
  - vm_compute. reflexivity.
  - reflexivity.
  - reflexivity.
  - apply not_in_whitelist_spec. reflexivity.
  - discriminate.
  - intros later Hin. by apply elem_of_nil in Hin.
Defined.

(** ** The body *)

(** X5.  Handing over the text of a document or the document it parses to makes
    no difference, as long as what the text parses to is not itself a
    string. *)
Theorem text_body_is_parsed_first JSON_parse text doc options :
  JSON_parse text = Ok doc →
  ¬ is_text doc →
  convertToOrbit JSON_parse (VStr text) options
  = convertToOrbit JSON_parse doc options.
Proof.
  intros Hparse Hnot. unfold convertToOrbit.
  assert (definitions_of JSON_parse (VStr text)
          = definitions_of JSON_parse doc) as ->; [|done].
  unfold definitions_of. rewrite Hparse. cbn [mbind result_bind].
  destruct doc; try done. exfalso. apply Hnot. by eexists.
Qed.

Lemma text_body_is_parsed_first_witness :
  parse_site "site" = Ok site_doc
  ∧ convertToOrbit parse_site (VStr "site") no_filters
    = convertToOrbit parse_site site_doc no_filters.
Proof.
  split; [reflexivity|].
  apply (text_body_is_parsed_first parse_site "site" site_doc no_filters);
    [reflexivity|].
  intros [text Htext]. discriminate Htext.
Defined.

(** X6.  The exceptions [convertToOrbit] can end with: the one [JSON.parse]
    threw on a text body, and otherwise only a [TypeError]. *)
Theorem convertToOrbit_exceptions JSON_parse body options e :
  convertToOrbit JSON_parse body options = Throw e →
  e = TypeError ∨ ∃ text, body = VStr text ∧ JSON_parse text = Throw e.
Proof.
  intros Hthrow.
  destruct (definitions_of JSON_parse body) as [entities|e'] eqn:Hent.
  - left. unfold convertToOrbit, reduce in Hthrow. rewrite Hent in Hthrow.
    cbn [mbind result_bind] in Hthrow.
    apply bind_Throw in Hthrow as [H|(types & _ & H)];
      [by eapply Object_keys_error|].
    apply bind_Throw in H as [H|(m & _ & H)]; [|done].
    eapply collect_error; [|exact H]. intros. by eapply definition_model_error.
  - unfold convertToOrbit in Hthrow. rewrite Hent in Hthrow.
    cbn [mbind result_bind] in Hthrow. injection Hthrow as ->.
    unfold definitions_of in Hent.
    destruct body as [| |b|n|text|xs|ps];
      try (left; by eapply get_prop_error).
    apply bind_Throw in Hent as [Hparse|(doc & _ & Hdef)].
    + right. by exists text.
    + left. by eapply get_prop_error.
Qed.

Lemma convertToOrbit_exceptions_witness :
  convertToOrbit parse_site (VStr "{") no_filters = Throw SyntaxError
  ∧ (SyntaxError = TypeError
     ∨ ∃ text, VStr "{" = VStr text ∧ parse_site text = Throw SyntaxError).
Proof.
  split; [reflexivity|].
  apply (convertToOrbit_exceptions parse_site (VStr "{") no_filters).
  reflexivity.
Defined.

(** X7.  A document that has no [definitions] member is not converted to an
    empty schema: listing the keys of [undefined] is a [TypeError]. *)
Theorem missing_definitions_throw JSON_parse members options :
  assoc "definitions" members = None →
  convertToOrbit JSON_parse (VObj members) options = Throw TypeError.
Proof.
  intros Hnone. unfold convertToOrbit, definitions_of, get_prop.
  cbn [own_props mbind result_bind]. by rewrite Hnone.
Qed.

Lemma missing_definitions_throw_witness :
  assoc "definitions" [("swagger", VStr "2.0")] = None
  ∧ convertToOrbit reject_text (VObj [("swagger", VStr "2.0")]) no_filters
    = Throw TypeError.
Proof.
  split; [reflexivity|].
  apply (missing_definitions_throw reject_text [("swagger", VStr "2.0")]).
  reflexivity.
Defined.

(** ** Types outside the whitelist *)

(** X8.  When no declared type passes the whitelist test (an empty whitelist, or
    a document that declares nothing), the result is the empty schema, and
    no definition is read: the definitions may be anything. *)
Theorem nothing_listed_gives_empty_schema
    JSON_parse body options entities types :
  definitions_of JSON_parse body = Ok entities →
  Object_keys entities = Ok types →
  (∀ type, type ∈ types → ¬ passes_whitelist options type) →
  convertToOrbit JSON_parse body options = Ok {| models := ∅ |}.
Proof.
  intros Hent Htypes Hnone. unfold convertToOrbit, reduce.
  rewrite Hent. cbn [mbind result_bind]. rewrite Htypes.
  cbn [mbind result_bind].
  assert (forEach (convert_type options entities) types ∅ = Ok ∅) as ->;
    [|done].
  clear Htypes. induction types as [|type types IH]; [done|].
  change (forEach (convert_type options entities) (type :: types) ∅)
    with (convert_type options entities ∅ type
          ≫= forEach (convert_type options entities) types).
  assert (not_in_whitelist options type = true) as Hskip.
  { destruct (not_in_whitelist options type) eqn:Hs; [done|].
    exfalso. apply (Hnone type); [left|]. by apply not_in_whitelist_spec. }
  assert (convert_type options entities ∅ type = Ok ∅) as ->
    by (unfold convert_type; by rewrite Hskip).
  cbn [mbind result_bind]. apply IH. intros t Ht. apply Hnone. by right.
Qed.

Lemma nothing_listed_gives_empty_schema_witness :
  convertToOrbit reject_text broken_page_doc nothing_whitelisted
  = Ok {| models := ∅ |}.
Proof.
  apply (nothing_listed_gives_empty_schema reject_text broken_page_doc
           nothing_whitelisted
           (VObj [("node:article", article_def); ("node:page", VNull)])
           ["node:article"; "node:page"]);
    [reflexivity | reflexivity |].
  intros type _ Hpass%not_in_whitelist_spec. discriminate Hpass.
Defined.

(** X9.  The definitions of the types that do not pass the whitelist test are
    never read: two documents that declare the same type names and agree on
    the definitions of the types that pass are converted alike, whatever the
    other definitions hold. *)
Theorem unlisted_definitions_are_not_read
    JSON_parse body1 body2 options entities1 entities2 :
  definitions_of JSON_parse body1 = Ok entities1 →
  definitions_of JSON_parse body2 = Ok entities2 →
  Object_keys entities1 = Object_keys entities2 →
  (∀ type, passes_whitelist options type →
     get_prop entities1 type = get_prop entities2 type) →
  convertToOrbit JSON_parse body1 options
  = convertToOrbit JSON_parse body2 options.
Proof.
  intros Hent1 Hent2 Hkeys Hsame. unfold convertToOrbit, reduce.
  rewrite Hent1, Hent2. cbn [mbind result_bind]. rewrite Hkeys.
  destruct (Object_keys entities2) as [types|]; [|done].
  cbn [mbind result_bind].
  rewrite (forEach_ext _ _ _ _ (convert_type_collect options entities1)).
  rewrite (forEach_ext _ _ _ _ (convert_type_collect options entities2)).
  rewrite (collect_ext _ (not_in_whitelist options) _ _
             (definition_model options entities2)); [done|done|].
  intros type _ Hpass%not_in_whitelist_spec.
  unfold definition_model. by rewrite Hsame.
Qed.

Lemma unlisted_definitions_are_not_read_witness :
  convertToOrbit reject_text site_doc only_articles
  = convertToOrbit reject_text broken_page_doc only_articles.
Proof.
  apply (unlisted_definitions_are_not_read reject_text site_doc
           broken_page_doc only_articles
           (VObj [("node:article", article_def); ("node:page", page_def)])
           (VObj [("node:article", article_def); ("node:page", VNull)]));
    [reflexivity | reflexivity | reflexivity |].
  intros type Hpass.
  specialize (Hpass {| wl_resources := Some ["node:article"] |}
                ["node:article"] eq_refl eq_refl).
  apply list_elem_of_singleton in Hpass as ->. reflexivity.
Defined.

(** ** Options *)

Lemma blacklisted_ext field options1 options2 :
  (∀ prop, in_blacklist field options1 prop ↔ in_blacklist field options2 prop) →
  ∀ prop, blacklisted field options1 prop = blacklisted field options2 prop.
Proof.
  intros Hsame prop.
  destruct (blacklisted field options1 prop) eqn:H1,
           (blacklisted field options2 prop) eqn:H2; try done.
  - apply blacklisted_spec, Hsame, blacklisted_spec in H1. congruence.
  - apply blacklisted_spec, Hsame, blacklisted_spec in H2. congruence.
Qed.

Lemma passes_whitelist_configured options w names type :
  whitelist options = Some w → wl_resources w = Some names →
  passes_whitelist options type ↔ type ∈ names.
Proof.
  intros Hw Hn. rewrite <- not_in_whitelist_spec.
  by apply (not_in_whitelist_configured options w names).
Qed.

Lemma in_blacklist_configured field options b names prop :
  blacklist options = Some b → field b = Some names →
  in_blacklist field options prop ↔ prop ∈ names.
Proof.
  intros Hb Hf. split.
  - intros (b' & names' & Hb' & Hf' & Hin). congruence.
  - intros Hin. by exists b, names.
Qed.

(** [serialize] looks at the options only to ask which names are
    blacklisted. *)
Lemma serialize_ext schema options1 options2 :
  (∀ prop, blacklisted bl_attributes options1 prop
           = blacklisted bl_attributes options2 prop) →
  (∀ prop, blacklisted bl_relationships options1 prop
           = blacklisted bl_relationships options2 prop) →
  serialize schema options1 = serialize schema options2.
Proof.
  intros Hattrs Hrels. unfold serialize.
  destruct (get_path schema ["properties"; "attributes"]) as [attrs|];
    [|done].
  cbn [mbind result_bind].
  assert (∀ props names,
            forEach (serialize_attribute options1 props) names ∅
            = forEach (serialize_attribute options2 props) names ∅) as HA.
  { intros. apply forEach_ext. intros acc prop.
    unfold serialize_attribute. by rewrite Hattrs. }
  assert (∀ props names,
            forEach (serialize_relationship options1 props) names ∅
            = forEach (serialize_relationship options2 props) names ∅) as HR.
  { intros. apply forEach_ext. intros acc prop.
    unfold serialize_relationship. by rewrite Hrels. }
  destruct (truthy attrs).
  - destruct (get_prop attrs "properties") as [props|]; [|done].
    cbn [mbind result_bind].
    destruct (Object_keys props) as [names|]; [|done].
    cbn [mbind result_bind]. rewrite HA.
    destruct (forEach (serialize_attribute options2 props) names ∅);
      [|done].
    cbn [mbind result_bind].
    destruct (get_path schema ["properties"; "relationships"]) as [rels|];
      [|done].
    cbn [mbind result_bind]. destruct (truthy rels); [|done].
    destruct (get_prop rels "properties") as [rprops|]; [|done].
    cbn [mbind result_bind].
    destruct (Object_keys rprops) as [rnames|]; [|done].
    cbn [mbind result_bind]. by rewrite HR.
  - cbn [mbind result_bind].
    destruct (get_path schema ["properties"; "relationships"]) as [rels|];
      [|done].
    cbn [mbind result_bind]. destruct (truthy rels); [|done].
    destruct (get_prop rels "properties") as [rprops|]; [|done].
    cbn [mbind result_bind].
    destruct (Object_keys rprops) as [rnames|]; [|done].
    cbn [mbind result_bind]. by rewrite HR.
Qed.

(** X10.  Only the sets of names the options list matter to [convertToOrbit]:
    not the order of the lists, not repetitions in them, not the difference
    between an empty list and an absent one in a blacklist, and not the base
    location. *)
Theorem options_matter_as_sets JSON_parse body options1 options2 :
  (∀ type, passes_whitelist options1 type ↔ passes_whitelist options2 type) →
  (∀ prop, in_blacklist bl_attributes options1 prop
           ↔ in_blacklist bl_attributes options2 prop) →
  (∀ prop, in_blacklist bl_relationships options1 prop
           ↔ in_blacklist bl_relationships options2 prop) →
  convertToOrbit JSON_parse body options1
  = convertToOrbit JSON_parse body options2.
Proof.
  intros Hwhite Hattrs Hrels. unfold convertToOrbit, reduce.
  destruct (definitions_of JSON_parse body) as [entities|]; [|done].
  cbn [mbind result_bind].
  destruct (Object_keys entities) as [types|]; [|done].
  cbn [mbind result_bind].
  rewrite (forEach_ext _ _ _ _ (convert_type_collect options1 entities)).
  rewrite (forEach_ext _ _ _ _ (convert_type_collect options2 entities)).
  rewrite (collect_ext _ (not_in_whitelist options2) _ _
             (definition_model options2 entities)); [done| |].
  - intros type _.
    destruct (not_in_whitelist options1 type) eqn:H1,
             (not_in_whitelist options2 type) eqn:H2; try done.
    + apply not_in_whitelist_spec, Hwhite, not_in_whitelist_spec in H2.
      congruence.
    + apply not_in_whitelist_spec, Hwhite, not_in_whitelist_spec in H1.
      congruence.
  - intros type _ _. unfold definition_model.
    destruct (get_prop entities type) as [definition|]; [|done].
    cbn [mbind result_bind].
    apply serialize_ext; by apply blacklisted_ext.
Qed.

Lemma options_matter_as_sets_witness :
  convertToOrbit reject_text site_doc listed_once
  = convertToOrbit reject_text site_doc listed_twice.
Proof.
  apply (options_matter_as_sets reject_text site_doc listed_once listed_twice).
  - intros type.
    rewrite (passes_whitelist_configured listed_once _ _ type eq_refl eq_refl).
    rewrite (passes_whitelist_configured listed_twice _ _ type eq_refl eq_refl).
    rewrite !elem_of_cons, !elem_of_nil. tauto.
  - intros prop.
    rewrite (in_blacklist_configured bl_attributes listed_once _ _ prop
               eq_refl eq_refl).
    rewrite (in_blacklist_configured bl_attributes listed_twice _ _ prop
               eq_refl eq_refl).
    rewrite !elem_of_cons, !elem_of_nil. tauto.
  - intros prop.
    rewrite (in_blacklist_configured bl_relationships listed_once _ _ prop
               eq_refl eq_refl).
    rewrite (in_blacklist_configured bl_relationships listed_twice _ _ prop
               eq_refl eq_refl).
    rewrite !elem_of_cons, !elem_of_nil. tauto.
Defined.

(** ** serialize *)

Lemma serialize_intro schema options attrs rels outAttrs outRels :
  get_path schema ["properties"; "attributes"] = Ok attrs →
  get_path schema ["properties"; "relationships"] = Ok rels →
  submap_built attrs (blacklisted bl_attributes options)
    attribute_model outAttrs →
  submap_built rels (blacklisted bl_relationships options)
    relationship_model outRels →
  serialize schema options
  = Ok {| attributes := outAttrs; relationships := outRels |}.
Proof.
  intros Hattrs Hrels HbA HbR. unfold serialize.
  rewrite Hattrs, Hrels. cbn [mbind result_bind].
  unfold submap_built in HbA, HbR.
  assert ((if truthy attrs then
             attrProps ← get_prop attrs "properties";
             names ← Object_keys attrProps;
             out ← forEach (serialize_attribute options attrProps) names ∅;
             Ok (Some out)
           else Ok None) = Ok outAttrs) as ->.
  { destruct (truthy attrs); [|by subst].
    destruct HbA as (props & names & m & -> & Hn & Hrun & ->).
    cbn [mbind result_bind]. rewrite Hn. cbn [mbind result_bind].
    rewrite (forEach_ext _ _ _ _ (serialize_attribute_collect options props)).
    by rewrite Hrun. }
  cbn [mbind result_bind].
  assert ((if truthy rels then
             relProps ← get_prop rels "properties";
             names ← Object_keys relProps;
             out ← forEach (serialize_relationship options relProps) names ∅;
             Ok (Some out)
           else Ok None) = Ok outRels) as ->; [|done].
  destruct (truthy rels); [|by subst].
  destruct HbR as (props & names & m & -> & Hn & Hrun & ->).
  cbn [mbind result_bind]. rewrite Hn. cbn [mbind result_bind].
  rewrite (forEach_ext _ _ _ _ (serialize_relationship_collect options props)).
  by rewrite Hrun.
Qed.

(** X11.  The keys of the relationships sub-map are exactly the relationship
    names of the definition that are not blacklisted, [__proto__] apart. *)
Theorem relationship_keys schema options out rels :
  serialize schema options = Ok out →
  relationships out = Some rels →
  ∃ relProps names,
    get_path schema ["properties"; "relationships"; "properties"]
    = Ok relProps ∧
    Object_keys relProps = Ok names ∧
    ∀ prop, is_Some (rels !! prop)
            ↔ prop ∈ names ∧ ¬ in_blacklist bl_relationships options prop
              ∧ prop ≠ "__proto__".
Proof.
  intros (attrs & member & _ & Hmember & _ & Hbuilt)%serialize_inv Hrels.
  destruct (submap_built_Some _ _ _ _ _ Hbuilt Hrels)
    as (relProps & names & Hprops & Hnames & Hrun).
  exists relProps, names. split_and!; [|done|].
  { change ["properties"; "relationships"; "properties"]
      with (["properties"; "relationships"] ++ ["properties"])%list.
    apply get_path_snoc_Ok. by exists member. }
  intros prop. rewrite <- not_blacklisted_spec. split.
  - intros [rm Hrm].
    by apply (collect_id_lookup _ _ _ _ _ _ Hrun) in Hrm as (? & ? & ? & _).
  - intros (Hin & Hallowed & Hproto).
    destruct (collect_lookup_some _ _ _ _ _ _ _ Hrun Hin Hallowed Hproto)
      as (y & rm & _ & _ & _ & _ & Hout).
    by exists rm.
Qed.

Lemma relationship_keys_witness :
  serialize page_def without_title_and_author = Ok filtered_page_model
  ∧ ∃ relProps names,
      get_path page_def ["properties"; "relationships"; "properties"]
      = Ok relProps ∧
      Object_keys relProps = Ok names ∧
      ∀ prop,
        is_Some (({[ "comments" :=
                       {| rel_type := hasMany; rel_model := VStr "comment" |} ]}
                    : gmap string RelationshipModel) !! prop)
        ↔ prop ∈ names
          ∧ ¬ in_blacklist bl_relationships without_title_and_author prop
          ∧ prop ≠ "__proto__".
Proof.
  split; [vm_compute; reflexivity|].
  apply (relationship_keys page_def without_title_and_author
           filtered_page_model);
    [vm_compute; reflexivity | reflexivity].
Defined.

Lemma submap_built_more_skipped {V} member (skip1 skip2 : string → bool)
    (compute : value → string → result V) out1 :
  (∀ prop, skip1 prop = true → skip2 prop = true) →
  submap_built member skip1 compute out1 →
  ∃ out2, submap_built member skip2 compute out2 ∧ restricted skip2 out1 out2.
Proof.
  unfold submap_built. intros Hmore Hbuilt.
  assert (∀ prop, skip2 prop = false → skip1 prop = false) as Hless.
  { intros prop Hs2. destruct (skip1 prop) eqn:Hs1; [|done].
    apply Hmore in Hs1. congruence. }
  destruct (truthy member); [|subst; by exists None].
  destruct Hbuilt as (props & names & m1 & Hp & Hn & Hrun & ->).
  destruct (collect_succeeds skip2 id (compute props) names ∅) as [m2 Hrun2].
  { intros x Hin Hs2.
    apply (collect_each_computed _ _ _ _ _ _ _ Hrun Hin (Hless x Hs2)). }
  exists (Some m2). split; [by exists props, names, m2|].
  intros prop. destruct (skip2 prop) eqn:Hs2.
  - destruct (m2 !! prop) as [v|] eqn:E; [|done].
    apply (collect_id_lookup _ _ _ _ _ _ Hrun2) in E as (_ & ? & _).
    congruence.
  - destruct (m1 !! prop) as [v|] eqn:E1.
    + apply (collect_id_lookup _ _ _ _ _ _ Hrun) in E1
        as (Hin & _ & Hproto & Hv).
      by apply (collect_id_lookup _ _ _ _ _ _ Hrun2).
    + destruct (m2 !! prop) as [v|] eqn:E2; [|done].
      apply (collect_id_lookup _ _ _ _ _ _ Hrun2) in E2
        as (Hin & _ & Hproto & Hv).
      rewrite <- E1. symmetry.
      apply (collect_id_lookup _ _ _ _ _ _ Hrun). auto.
Qed.

(** X12.  Blacklisting more names never makes [serialize] fail, and in its result
    it only removes the entries of the newly blacklisted names: every other
    entry is what it was. *)
Theorem blacklisting_more_only_removes schema options1 options2 model1 :
  (∀ prop, in_blacklist bl_attributes options1 prop
           → in_blacklist bl_attributes options2 prop) →
  (∀ prop, in_blacklist bl_relationships options1 prop
           → in_blacklist bl_relationships options2 prop) →
  serialize schema options1 = Ok model1 →
  ∃ model2,
    serialize schema options2 = Ok model2 ∧
    restricted (blacklisted bl_attributes options2)
      (attributes model1) (attributes model2) ∧
    restricted (blacklisted bl_relationships options2)
      (relationships model1) (relationships model2).
Proof.
  intros Hattrs Hrels
    (attrs & rels & Ha & Hr & HbA & HbR)%serialize_inv.
  destruct (submap_built_more_skipped _ _
              (blacklisted bl_attributes options2) _ _ (λ prop H,
                proj2 (blacklisted_spec _ _ _)
                  (Hattrs prop (proj1 (blacklisted_spec _ _ _) H))) HbA)
    as (outAttrs & HbA2 & HresA).
  destruct (submap_built_more_skipped _ _
              (blacklisted bl_relationships options2) _ _ (λ prop H,
                proj2 (blacklisted_spec _ _ _)
                  (Hrels prop (proj1 (blacklisted_spec _ _ _) H))) HbR)
    as (outRels & HbR2 & HresR).
  exists {| attributes := outAttrs; relationships := outRels |}.
  split; [by apply (serialize_intro _ _ attrs rels)|done].
Qed.

Lemma blacklisting_more_only_removes_witness :
  serialize page_def no_filters = Ok page_model
  ∧ ∃ model2,
      serialize page_def without_title_and_author = Ok model2 ∧
      restricted (blacklisted bl_attributes without_title_and_author)
        (attributes page_model) (attributes model2) ∧
      restricted (blacklisted bl_relationships without_title_and_author)
        (relationships page_model) (relationships model2).
Proof.
  split; [vm_compute; reflexivity|].
  apply (blacklisting_more_only_removes page_def no_filters
           without_title_and_author page_model);
    [| | vm_compute; reflexivity].
  - intros prop Hin%blacklisted_spec. discriminate Hin.
  - intros prop Hin%blacklisted_spec. discriminate Hin.
Defined.

(** X13.  A definition whose [attributes] and [relationships] members are absent
    or otherwise falsy ([null], [0], the empty string, [false]) serializes
    to a model with neither sub-map. *)
Theorem falsy_members_are_absent schema options attrs rels :
  get_path schema ["properties"; "attributes"] = Ok attrs →
  get_path schema ["properties"; "relationships"] = Ok rels →
  truthy attrs = false →
  truthy rels = false →
  serialize schema options = Ok bare_model.
Proof.
  intros Ha Hr Hfa Hfr. apply (serialize_intro _ _ attrs rels); try done.
  - unfold submap_built. by rewrite Hfa.
  - unfold submap_built. by rewrite Hfr.
Qed.

Lemma falsy_members_are_absent_witness :
  serialize falsy_members_def no_filters = Ok bare_model.
Proof.
  apply (falsy_members_are_absent falsy_members_def no_filters
           VNull (VNum 0)); reflexivity.
Defined.

(** X14.  An attribute whose descriptor is [null] makes [serialize] throw, unless
    its name is blacklisted. *)
Theorem null_attribute_descriptor_throws
    schema options attrProps names prop :
  get_path schema ["properties"; "attributes"; "properties"] = Ok attrProps →
  Object_keys attrProps = Ok names →
  prop ∈ names →
  ¬ in_blacklist bl_attributes options prop →
  get_prop attrProps prop = Ok VNull →
  serialize schema options = Throw TypeError.
Proof.
  intros Hpath Hnames Hin Hallowed%not_blacklisted_spec Hnull.
  destruct (serialize schema options) as [out|e] eqn:Hser;
    [exfalso | f_equal; by eapply serialize_error].
  apply serialize_inv in Hser as (member & _ & Hmember & _ & Hbuilt & _).
  change ["properties"; "attributes"; "properties"]
    with (["properties"; "attributes"] ++ ["properties"])%list in Hpath.
  apply get_path_snoc_Ok in Hpath as (member' & Hmember' & Hprops).
  assert (member' = member) as -> by congruence.
  unfold submap_built in Hbuilt.
  rewrite (is_object_truthy member) in Hbuilt
    by (by eapply properties_holder_is_object).
  destruct Hbuilt as (props & names' & m & Hprops' & Hnames' & Hrun & _).
  assert (props = attrProps) as -> by congruence.
  assert (names' = names) as -> by congruence.
  destruct (collect_throws (blacklisted bl_attributes options) id
              (attribute_model attrProps) names ∅ prop TypeError
              Hin Hallowed)
    as (y & e' & _ & _ & _ & Hfail); [|congruence].
  unfold attribute_model. by rewrite Hnull.
Qed.

Lemma null_attribute_descriptor_throws_witness :
  serialize null_title_def no_filters = Throw TypeError.
Proof.
  apply (null_attribute_descriptor_throws null_title_def no_filters
           (VObj [("title", VNull)]) ["title"] "title");
    [reflexivity | reflexivity | apply list_elem_of_here | | reflexivity].
  apply not_blacklisted_spec. reflexivity.
Defined.

(** ** generate *)

Lemma generate_resolves_witness :
  Fetcher.generate reject_text working_oAuth (serve site_doc) no_filters
  = Fetcher.quiet (Fetcher.Fulfilled site_schema).
Proof.
  apply (generate_resolves reject_text working_oAuth (serve site_doc)
           no_filters (VStr "t0ken") {| Fetcher.data := site_doc |});
    [reflexivity | reflexivity | reflexivity | vm_compute; reflexivity].
Defined.

Lemma generate_transport_error_witness :
  Fetcher.generate reject_text working_oAuth refuse no_filters
  = {| Fetcher.promise := Fetcher.Pending;
       Fetcher.logged := [Fetcher.Failure "503"];
       Fetcher.unhandled := [] |}.
Proof.
  apply (generate_transport_error reject_text working_oAuth refuse no_filters
           (VStr "t0ken")); reflexivity.
Defined.

(** X19.  The promise of [generate] is fulfilled only with the conversion of the
    document that [axios.get] delivered for the fixed path, the configured
    base and the access token left by [getToken]. *)
Theorem generate_fulfilled_only_with_conversion
    JSON_parse oAuth axios_get options schema :
  Fetcher.promise (Fetcher.generate JSON_parse oAuth axios_get options)
  = Fetcher.Fulfilled schema →
  ∃ token response,
    Fetcher.getToken oAuth = Fetcher.Returns (Fetcher.Fulfilled ()) ∧
    get_prop (Fetcher.tokenInformation oAuth) "access_token" = Ok token ∧
    axios_get {| Fetcher.url := "/openapi/jsonapi?_format=json";
                 Fetcher.baseURL := base options;
                 Fetcher.bearer := token |}
    = Fetcher.Returns (Fetcher.Fulfilled response) ∧
    convertToOrbit JSON_parse (Fetcher.data response) options = Ok schema.
Proof.
  unfold Fetcher.generate, Fetcher.on_token, Fetcher.on_response.
  destruct (Fetcher.getToken oAuth) as [r|[|[]|r]]; try done.
  destruct (get_prop (Fetcher.tokenInformation oAuth) "access_token")
    as [token|]; [|done].
  destruct (axios_get _) as [r|[|response|r]] eqn:Hget; try done.
  destruct (convertToOrbit JSON_parse (Fetcher.data response) options)
    as [converted|] eqn:Hconv; [|done].
  intros [= <-]. by exists token, response.
Qed.

Lemma generate_fulfilled_only_with_conversion_witness :
  ∃ token response,
    Fetcher.getToken working_oAuth = Fetcher.Returns (Fetcher.Fulfilled ()) ∧
    get_prop (Fetcher.tokenInformation working_oAuth) "access_token"
    = Ok token ∧
    serve site_doc {| Fetcher.url := "/openapi/jsonapi?_format=json";
                      Fetcher.baseURL := base no_filters;
                      Fetcher.bearer := token |}
    = Fetcher.Returns (Fetcher.Fulfilled response) ∧
    convertToOrbit reject_text (Fetcher.data response) no_filters
    = Ok site_schema.
Proof.
  apply (generate_fulfilled_only_with_conversion reject_text working_oAuth
           (serve site_doc) no_filters site_schema).
  vm_compute. reflexivity.
Defined.

(** X20.  The promise of [generate] is rejected only when the call of [getToken]
    itself throws: a rejected token promise, a failed document read and a
    document that cannot be converted never reject it. *)
Theorem generate_rejected_only_by_getToken_throwing
    JSON_parse oAuth axios_get options r :
  Fetcher.promise (Fetcher.generate JSON_parse oAuth axios_get options)
  = Fetcher.Rejected r →
  Fetcher.getToken oAuth = Fetcher.Throws r.
Proof.
  unfold Fetcher.generate, Fetcher.on_token, Fetcher.on_response.
  destruct (Fetcher.getToken oAuth) as [r'|[|[]|r']]; try done.
  - by intros [= <-].
  - destruct (get_prop (Fetcher.tokenInformation oAuth) "access_token")
      as [token|]; [|done].
    destruct (axios_get _) as [r'|[|response|r']]; try done.
    by destruct (convertToOrbit JSON_parse (Fetcher.data response) options).
Qed.

Lemma generate_rejected_only_by_getToken_throwing_witness :
  Fetcher.getToken
    {| Fetcher.getToken := Fetcher.Throws (Fetcher.Thrown TypeError);
       Fetcher.tokenInformation := VUndefined |}
  = Fetcher.Throws (Fetcher.Thrown TypeError).
Proof.
  apply (generate_rejected_only_by_getToken_throwing reject_text
           {| Fetcher.getToken := Fetcher.Throws (Fetcher.Thrown TypeError);
              Fetcher.tokenInformation := VUndefined |}
           (serve site_doc) no_filters).
  reflexivity.
Defined.

(** X21.  A fetched document that cannot be converted is only logged: the
    exception of [convertToOrbit] goes to the console, and the promise of
    [generate] stays pending. *)
Theorem generate_conversion_failure_is_logged
    JSON_parse oAuth axios_get options token response e :
  Fetcher.getToken oAuth = Fetcher.Returns (Fetcher.Fulfilled ()) →
  get_prop (Fetcher.tokenInformation oAuth) "access_token" = Ok token →
  axios_get {| Fetcher.url := "/openapi/jsonapi?_format=json";
               Fetcher.baseURL := base options;
               Fetcher.bearer := token |}
  = Fetcher.Returns (Fetcher.Fulfilled response) →
  convertToOrbit JSON_parse (Fetcher.data response) options = Throw e →
  Fetcher.generate JSON_parse oAuth axios_get options
  = {| Fetcher.promise := Fetcher.Pending;
       Fetcher.logged := [Fetcher.Thrown e];
       Fetcher.unhandled := [] |}.
Proof.
  intros Htoken Hinfo Hget Hconv. unfold Fetcher.generate, Fetcher.on_token.
  rewrite Htoken, Hinfo, Hget. unfold Fetcher.on_response. by rewrite Hconv.
Qed.

Lemma generate_conversion_failure_is_logged_witness :
  Fetcher.generate reject_text working_oAuth (serve missing_enum_doc)
    no_filters
  = {| Fetcher.promise := Fetcher.Pending;
       Fetcher.logged := [Fetcher.Thrown TypeError];
       Fetcher.unhandled := [] |}.
Proof.
  apply (generate_conversion_failure_is_logged reject_text working_oAuth
           (serve missing_enum_doc) no_filters (VStr "t0ken")
           {| Fetcher.data := missing_enum_doc |});
    [reflexivity | reflexivity | reflexivity | vm_compute; reflexivity].
Defined.

(** ** writeToFile *)

(** X22.  Once the file is written, the promise is fulfilled with the schema it
    was given, unchanged, and one line is logged. *)
Theorem writeToFile_returns_the_schema
    JSON_stringify fs_writeFile file schema text :
  JSON_stringify schema = Ok text →
  fs_writeFile file text = Writer.CallsBack None →
  Writer.writeToFile JSON_stringify fs_writeFile file schema
  = {| Writer.promise := Fetcher.Fulfilled schema;
       Writer.logged := ["Schema saved to " +:+ file] |}.
Proof.
  intros Htext Hwrite. unfold Writer.writeToFile. by rewrite Htext, Hwrite.
Qed.

Lemma writeToFile_returns_the_schema_witness :
  Writer.writeToFile stringify_braces disk_ok "schema.json" site_schema
  = {| Writer.promise := Fetcher.Fulfilled site_schema;
       Writer.logged := ["Schema saved to schema.json"] |}.
Proof.
  apply (writeToFile_returns_the_schema stringify_braces disk_ok
           "schema.json" site_schema "{}"); reflexivity.
Defined.

(** X23.  When writing fails, the promise is rejected with the error of
    [fs.writeFile]: the call of [resolve] that follows has no effect.  The
    line saying the schema was saved is logged all the same. *)
Theorem writeToFile_failure_rejects_and_still_logs
    JSON_stringify fs_writeFile file schema text err :
  JSON_stringify schema = Ok text →
  fs_writeFile file text = Writer.CallsBack (Some err) →
  Writer.writeToFile JSON_stringify fs_writeFile file schema
  = {| Writer.promise := Fetcher.Rejected err;
       Writer.logged := ["Schema saved to " +:+ file] |}.
Proof.
  intros Htext Hwrite. unfold Writer.writeToFile. by rewrite Htext, Hwrite.
Qed.

Lemma writeToFile_failure_rejects_and_still_logs_witness :
  Writer.writeToFile stringify_braces disk_full "schema.json" site_schema
  = {| Writer.promise := Fetcher.Rejected (Fetcher.Failure "ENOSPC");
       Writer.logged := ["Schema saved to schema.json"] |}.
Proof.
  apply (writeToFile_failure_rejects_and_still_logs stringify_braces disk_full
           "schema.json" site_schema "{}"); reflexivity.
Defined.

(** X24.  The promise is never fulfilled with anything but the schema that was
    passed in, and only after [fs.writeFile] reported success for the
    serialized schema. *)
Theorem writeToFile_fulfilled_only_after_writing
    JSON_stringify fs_writeFile file schema result :
  Writer.promise (Writer.writeToFile JSON_stringify fs_writeFile file schema)
  = Fetcher.Fulfilled result →
  result = schema
  ∧ ∃ text, JSON_stringify schema = Ok text
            ∧ fs_writeFile file text = Writer.CallsBack None.
Proof.
  unfold Writer.writeToFile.
  destruct (JSON_stringify schema) as [text|]; [|done].
  destruct (fs_writeFile file text) as [r|[err|]|] eqn:Hwrite; try done.
  simpl. intros [= <-]. split; [done|]. by exists text.
Qed.

Lemma writeToFile_fulfilled_only_after_writing_witness :
  site_schema = site_schema
  ∧ ∃ text, stringify_braces site_schema = Ok text
            ∧ disk_ok "schema.json" text = Writer.CallsBack None.
Proof.
  apply (writeToFile_fulfilled_only_after_writing stringify_braces disk_ok
           "schema.json" site_schema site_schema).
  reflexivity.
Defined.

(** ** All or nothing *)

(** X16.  [convertToOrbit] returns a schema exactly when the definition of every
    declared type that passes the whitelist test serializes: one definition
    that does not makes the whole conversion throw, and no partial schema is
    returned. *)
Theorem convertToOrbit_returns_iff JSON_parse body options entities types :
  definitions_of JSON_parse body = Ok entities →
  Object_keys entities = Ok types →
  (∃ out, convertToOrbit JSON_parse body options = Ok out)
  ↔ (∀ type, type ∈ types → passes_whitelist options type →
       ∃ definition model,
         get_prop entities type = Ok definition ∧
         serialize definition options = Ok model).
Proof.
  intros Hent Htypes. split.
  - intros [out (entities' & types' & Hent' & Htypes' & Hrun)%convertToOrbit_inv]
      type Hin Hpass%not_in_whitelist_spec.
    assert (entities' = entities) as -> by congruence.
    assert (types' = types) as -> by congruence.
    destruct (collect_each_computed _ _ _ _ _ _ _ Hrun Hin Hpass)
      as [model Hmodel].
    unfold definition_model in Hmodel.
    apply bind_Ok in Hmodel as (definition & Hdef & Hser).
    by exists definition, model.
  - intros Hall.
    apply (convertToOrbit_succeeds _ _ _ entities types Hent Htypes).
    intros type Hin Hpass%not_in_whitelist_spec.
    destruct (Hall type Hin Hpass) as (definition & model & Hdef & Hser).
    exists model. unfold definition_model. by rewrite Hdef.
Qed.

Lemma convertToOrbit_returns_iff_witness :
  (∃ out, convertToOrbit reject_text broken_page_doc only_articles = Ok out)
  ↔ (∀ type, type ∈ ["node:article"; "node:page"] →
       passes_whitelist only_articles type →
       ∃ definition model,
         get_prop (VObj [("node:article", article_def); ("node:page", VNull)])
           type = Ok definition ∧
         serialize definition only_articles = Ok model).
Proof.
  apply (convertToOrbit_returns_iff reject_text broken_page_doc only_articles);
    reflexivity.
Defined.

(** ** Targets *)

(** X15.  Of the target types a relationship declares, only the first is kept as
    the model, whatever the others are (a relationship named [__proto__] is
    not kept at all). *)
Theorem first_target_only
    schema options out relProps names prop data first others :
  serialize schema options = Ok out →
  get_path schema ["properties"; "relationships"; "properties"] = Ok relProps →
  Object_keys relProps = Ok names →
  prop ∈ names →
  ¬ in_blacklist bl_relationships options prop →
  prop ≠ "__proto__" →
  get_path relProps [prop; "properties"; "data"] = Ok data →
  target_enum data = Ok (VArr (first :: others)) →
  ∃ rels kind,
    relationships out = Some rels ∧
    rels !! prop = Some {| rel_type := kind; rel_model := first |}.
Proof.
  intros Hser Hpath Hnames Hin Hallowed%not_blacklisted_spec Hproto
    Hdata Henum.
  destruct (serialize_relationships_built _ _ _ _ _ Hser Hpath Hnames)
    as (rels & Hrels & Hrun).
  destruct (collect_lookup_some _ _ _ _ _ _ _ Hrun Hin Hallowed Hproto)
    as (prop' & rm & _ & _ & Hsame & Hrm & Hlookup).
  simpl in Hsame, Hlookup. subst prop'.
  apply relationship_model_inv in Hrm as (data' & dataType & Hdata' & Hty & H).
  assert (data' = data) as -> by congruence.
  unfold target_enum in Henum. rewrite Hty in Henum.
  cbn [mbind result_bind] in Henum.
  exists rels.
  destruct (strict_eq_str dataType "array");
    destruct H as (enum & model & Henum' & Hfirst & ->);
    assert (enum = VArr (first :: others)) as -> by congruence;
    rewrite get_prop_first in Hfirst; injection Hfirst as <-;
    by eexists.
Qed.

Lemma first_target_only_witness :
  serialize page_def no_filters = Ok page_model
  ∧ ∃ rels kind,
      relationships page_model = Some rels ∧
      rels !! "comments"
      = Some {| rel_type := kind; rel_model := VStr "comment" |}.
Proof.
  split; [vm_compute; reflexivity|].
  apply (first_target_only page_def no_filters page_model page_relationships
           ["author"; "comments"] "comments"
           (VObj [("type", VStr "array"); ("items", target ["comment"; "reply"])])
           (VStr "comment") [VStr "reply"]);
    [vm_compute; reflexivity | reflexivity | reflexivity
    | apply list_elem_of_further, list_elem_of_here
    | apply not_blacklisted_spec; reflexivity
    | discriminate
    | reflexivity | reflexivity].
Defined.
